(** * school-directory-scraper: a shallow embedding of [school-admin-scraper.py]
    and of [contactScraper.py], with the properties of its specification.

    Python strings are sequences of code points.  Here a string is a Rocq
    [string] and each [ascii] is read as the code point of the same number
    (0..255, the Latin-1 range): [is_space], [is_digit] and [lower] are the
    restrictions of [str.isspace], the regex class [\d] and [str.lower] to
    that range.  The browser, pandas and the file system are collaborators:
    what the browser answers is an input of the model (a [world] per visited
    term), what the program asks of pandas and of the file system is an
    output (the frame handed to [to_excel], the text written to the skip
    report, the trace of driver calls). *)

From Stdlib Require Import String Ascii List Bool Arith Lia.
Import ListNotations.

Open Scope string_scope.
Open Scope list_scope.

(** Python's [+] on strings. *)
Infix "+++" := String.append (right associativity, at level 60).

(** ** Python's [str] methods *)

Module PyStr.

Definition code (c : ascii) : nat := nat_of_ascii c.

(** [str.isspace] on one code point below 256. *)
Definition is_space (c : ascii) : bool :=
  let n := code c in
  (((9 <=? n) && (n <=? 13)) || ((28 <=? n) && (n <=? 32))
   || (n =? 133) || (n =? 160))%nat.

(** The regex class [\d] on one code point below 256. *)
Definition is_digit (c : ascii) : bool :=
  let n := code c in ((48 <=? n) && (n <=? 57))%nat.

(** [str.lower] on one code point below 256. *)
Definition lower (c : ascii) : ascii :=
  let n := code c in
  if (((65 <=? n) && (n <=? 90))
      || ((192 <=? n) && (n <=? 222) && negb (n =? 215)))%nat
  then ascii_of_nat (n + 32) else c.

Fixpoint lower_str (s : string) : string :=
  match s with
  | EmptyString => EmptyString
  | String c s' => String (lower c) (lower_str s')
  end.

Fixpoint lstrip (s : string) : string :=
  match s with
  | EmptyString => EmptyString
  | String c s' => if is_space c then lstrip s' else s
  end.

Fixpoint rstrip (s : string) : string :=
  match s with
  | EmptyString => EmptyString
  | String c s' =>
      match rstrip s' with
      | EmptyString => if is_space c then EmptyString else String c EmptyString
      | r => String c r
      end
  end.

(** [s.strip()] *)
Definition strip (s : string) : string := rstrip (lstrip s).

Definition is_empty (s : string) : bool :=
  match s with EmptyString => true | _ => false end.

(** [s.split(sep)] for a one-character separator. *)
Fixpoint split (sep : ascii) (s : string) : list string :=
  match s with
  | EmptyString => [EmptyString]
  | String c s' =>
      if Ascii.eqb c sep then EmptyString :: split sep s'
      else match split sep s' with
           | [] => [String c EmptyString]
           | l :: ls => String c l :: ls
           end
  end.

(** [needle in hay] *)
Fixpoint contains (needle hay : string) : bool :=
  prefix needle hay
  || match hay with
     | EmptyString => false
     | String _ hay' => contains needle hay'
     end.

Fixpoint drop (n : nat) (s : string) : string :=
  match n, s with
  | S n', String _ s' => drop n' s'
  | _, _ => s
  end.

Fixpoint take (n : nat) (s : string) : string :=
  match n, s with
  | S n', String c s' => String c (take n' s')
  | _, _ => EmptyString
  end.

(** [s.replace(old, new)] for a non-empty [old]: the occurrences are taken
    from the left and do not overlap; [skip] counts the characters of the
    occurrence being replaced that are still to be passed over. *)
Fixpoint replace_go (old new : string) (skip : nat) (s : string) : string :=
  match s with
  | EmptyString => EmptyString
  | String c s' =>
      match skip with
      | S n => replace_go old new n s'
      | O =>
          if prefix old s
          then new +++ replace_go old new (String.length old - 1) s'
          else String c (replace_go old new 0 s')
      end
  end.

Definition replace (old new s : string) : string := replace_go old new 0 s.

End PyStr.

(** ** The fragment of Python's [re] the program uses

    A backtracking matcher in continuation-passing style: alternatives are
    tried in the order of Python's engine (greedy first), the first success
    wins. *)

Module Re.
Import PyStr.

Inductive regex : Type :=
| Class (p : ascii -> bool)      (* one character of a class, or a literal *)
| Cat (a b : regex)              (* ab *)
| Opt (a : regex)                (* a? *)
| Plus (p : ascii -> bool)       (* [class]+ *)
| Eol                            (* $ *)
| Eps.

(** [$] without [re.MULTILINE]: the end of the string, or just before a
    newline that ends the string. *)
Definition at_eol (s : string) : bool :=
  match s with
  | EmptyString => true
  | String c EmptyString => Ascii.eqb c "010"%char
  | _ => false
  end.

Section Exec.
Context {A : Type}.

Fixpoint plus_loop (p : ascii -> bool) (s : string)
         (k : string -> option A) : option A :=
  match s with
  | String c s' =>
      if p c then
        match plus_loop p s' k with
        | Some x => Some x
        | None => k s'
        end
      else None
  | EmptyString => None
  end.

Fixpoint exec (r : regex) (s : string) (k : string -> option A) : option A :=
  match r with
  | Class p =>
      match s with
      | String c s' => if p c then k s' else None
      | EmptyString => None
      end
  | Cat a b => exec a s (fun s1 => exec b s1 k)
  | Opt a =>
      match exec a s k with
      | Some x => Some x
      | None => k s
      end
  | Plus p => plus_loop p s k
  | Eol => if at_eol s then k s else None
  | Eps => k s
  end.
End Exec.

(** A match anchored at the start of [s]; the result is what follows it. *)
Definition match_here (r : regex) (s : string) : option string :=
  exec r s (fun rest => Some rest).

(** [re.search(r, s)]: the text of the leftmost match ([group(0)]). *)
Fixpoint search (r : regex) (s : string) : option string :=
  match match_here r s with
  | Some rest => Some (take (String.length s - String.length rest) s)
  | None =>
      match s with
      | EmptyString => None
      | String _ s' => search r s'
      end
  end.

(** [re.sub(r, repl, s)] for a pattern that matches no empty string (every
    pattern of the program starts with a mandatory character): [skip] counts
    the characters of the current match still to be passed over. *)
Fixpoint sub_go (r : regex) (repl : string) (skip : nat) (s : string) : string :=
  match s with
  | EmptyString => EmptyString
  | String c s' =>
      match skip with
      | S n => sub_go r repl n s'
      | O =>
          match match_here r s with
          | Some rest =>
              match String.length s - String.length rest with
              | O => String c (sub_go r repl 0 s')
              | S n => repl +++ sub_go r repl n s'
              end
          | None => String c (sub_go r repl 0 s')
          end
      end
  end.

Definition sub (r : regex) (repl s : string) : string := sub_go r repl 0 s.

(** A literal under [re.IGNORECASE]. *)
Fixpoint lit_ci (w : string) : regex :=
  match w with
  | EmptyString => Eps
  | String c w' => Cat (Class (fun x => Ascii.eqb (lower x) (lower c))) (lit_ci w')
  end.

Definition chr (c : ascii) : regex := Class (Ascii.eqb c).

(** The relation the matcher decides: [matches r s rest] when [r] can consume
    a prefix of [s] and leave [rest]. *)
Inductive matches : regex -> string -> string -> Prop :=
| M_class p c s : p c = true -> matches (Class p) (String c s) s
| M_cat a b s s1 s2 : matches a s s1 -> matches b s1 s2 -> matches (Cat a b) s s2
| M_opt_some a s s1 : matches a s s1 -> matches (Opt a) s s1
| M_opt_none a s : matches (Opt a) s s
| M_plus_one p c s : p c = true -> matches (Plus p) (String c s) s
| M_plus_more p c s s1 :
    p c = true -> matches (Plus p) s s1 -> matches (Plus p) (String c s) s1
| M_eol s : at_eol s = true -> matches Eol s s
| M_eps s : matches Eps s s.

End Re.

(** ** The program: [school-admin-scraper.py] *)

Module Scraper.
Import PyStr Re.

(** *** Exceptions and fallible calls *)

Inductive exn : Type :=
| TimeoutException
| NoSuchElementException
| StaleElementReferenceException
| OtherException.

(** The result of a call into the browser or pandas: a value, or the
    exception it raises. *)
Inductive py (A : Type) : Type :=
| Ok (a : A)
| Raise (e : exn).
Arguments Ok {A} a.
Arguments Raise {A} e.

(** *** Configuration ([WEBSITE_CONFIG]) *)

Record output_columns : Type := {
  oc_name : string;
  oc_job_title : string;
  oc_email : string;
  oc_phone : string
}.

Record config : Type := {
  url : string;
  search_bar_id : string;
  search_results_link_selector : string;
  detail_page_name_selector : string;
  contact_data_xpaths : list (string * string);
  input_column : string;
  out_columns : output_columns
}.

Definition WEBSITE_CONFIG : config := {|
  url := "https://www.cde.ca.gov/SchoolDirectory/";
  search_bar_id := "AllSearchField";
  search_results_link_selector := "table.table-bordered tbody tr td a";
  detail_page_name_selector := "h1.page-title";
  contact_data_xpaths :=
    [ ("Superintendent",
       "//th[@class='details-field-label' and contains(text(), 'Superintendent')]/following-sibling::td");
      ("Chief Business Official",
       "//th[@class='details-field-label' and contains(text(), 'Chief Business Official')]/following-sibling::td") ];
  input_column := "District Name";
  out_columns := {| oc_name := "Contact Name";
                    oc_job_title := "Contact Job Title";
                    oc_email := "Contact Email";
                    oc_phone := "Contact Phone Number" |}
|}.

(** *** The browser as the program sees it *)

(** The [<a href^='mailto:'>] found inside a block: [get_attribute("href")]
    answers a string, [None], or raises. *)
Record anchor : Type := { href : py (option string) }.

(** A [WebElement]: what each call on it answers. *)
Record element : Type := {
  text : py string;
  is_displayed : py bool;
  click : py unit;
  find_mailto : py anchor     (* find_element(By.CSS_SELECTOR, "a[href^='mailto:']") *)
}.

(** What the browser answers during the visit of one term. *)
Record world : Type := {
  get : string -> py unit;                  (* driver.get(url) *)
  wait_search_bar : string -> py unit;      (* WebDriverWait(driver, 10).until(presence of the search bar) *)
  send_keys : string -> py unit;            (* the send_keys calls on the search bar *)
  find_title : string -> py element;        (* driver.find_element(By.CSS_SELECTOR, selector) *)
  wait_results : string -> py (list element); (* WebDriverWait(driver, 10).until(presence of all links) *)
  find_field : string -> py element         (* driver.find_element(By.XPATH, xpath) *)
}.

(** *** [extract_contact_info] *)

Definition NA : string := "N/A".

Definition digit : regex := Class is_digit.
Definition sep : regex :=
  Class (fun c => Ascii.eqb c "-"%char || Ascii.eqb c "."%char || is_space c).
Definition digits3 : regex := Cat digit (Cat digit digit).
Definition digits4 : regex := Cat digit (Cat digit (Cat digit digit)).

(** [r'\(?\d{3}\)?[-.\s]?\d{3}[-.\s]?\d{4}'] *)
Definition phone_re : regex :=
  Cat (Opt (chr "("%char))
   (Cat digits3
    (Cat (Opt (chr ")"%char))
     (Cat (Opt sep)
      (Cat digits3
       (Cat (Opt sep) digits4))))).

Definition newline : ascii := "010"%char.

(** [[line.strip() for line in full_text.split('\n') if line.strip()]] *)
Definition nonempty_lines (full_text : string) : list string :=
  map strip (filter (fun line => negb (is_empty (strip line))) (split newline full_text)).

Definition extract_contact_info (td_element : element)
  : py (string * string * string) :=
  match text td_element with
  | Raise e => Raise e
  | Ok t =>
      let full_text := strip t in
      let lines := nonempty_lines full_text in
      let name := match lines with l :: _ => l | [] => NA end in
      let phone := match search phone_re full_text with
                   | Some m => m
                   | None => NA
                   end in
      let email := match find_mailto td_element with
                   | Ok email_link =>
                       match href email_link with
                       | Ok (Some h) => replace "mailto:" "" h
                       | Ok None => NA        (* None.replace raises, caught *)
                       | Raise _ => NA
                       end
                   | Raise _ => NA
                   end in
      Ok (name, phone, email)
  end.

(** *** [clean_search_term] *)

(** [r'\s+school\s+district$'] with [re.IGNORECASE] *)
Definition school_district_re : regex :=
  Cat (Plus is_space)
   (Cat (lit_ci "school") (Cat (Plus is_space) (Cat (lit_ci "district") Eol))).

(** [r'\s+district$'] with [re.IGNORECASE] *)
Definition district_re : regex :=
  Cat (Plus is_space) (Cat (lit_ci "district") Eol).

(** [r'\s+'] *)
Definition spaces_re : regex := Plus is_space.

Definition clean_search_term (term : string) : string :=
  let cleaned_name := strip term in
  let cleaned_name := strip (sub school_district_re "" cleaned_name) in
  let cleaned_name := strip (sub district_re "" cleaned_name) in
  let cleaned_name := strip (sub spaces_re " " cleaned_name) in
  cleaned_name.

(** *** The state of a run *)

(** One scraped record: the dictionary built at lines 189-195. *)
Record record : Type := {
  r_term : string;        (* config['input_column'] *)
  r_name : string;
  r_job_title : string;
  r_email : string;
  r_phone : string
}.

Inductive driver_call : Type :=
| DMaximize              (* driver.maximize_window() *)
| DGet (u : string)      (* driver.get(u) *)
| DQuit.                 (* driver.quit() *)

Record state : Type := {
  processed_count : nat;
  skipped_items : list string;
  scraped_records : list record;
  driver_calls : list driver_call
}.

Definition initial : state :=
  {| processed_count := 0; skipped_items := []; scraped_records := [];
     driver_calls := [] |}.

Definition call (st : state) (c : driver_call) : state :=
  {| processed_count := processed_count st;
     skipped_items := skipped_items st;
     scraped_records := scraped_records st;
     driver_calls := driver_calls st ++ [c] |}.

(** [skipped_items.append(f"{original_term} ({reason})")] *)
Definition skip (st : state) (original_term reason : string) : state :=
  {| processed_count := processed_count st;
     skipped_items := skipped_items st ++ [original_term +++ " (" +++ reason +++ ")"];
     scraped_records := scraped_records st;
     driver_calls := driver_calls st |}.

Definition processed (st : state) : state :=
  {| processed_count := processed_count st + 1;
     skipped_items := skipped_items st;
     scraped_records := scraped_records st;
     driver_calls := driver_calls st |}.

Definition with_records (st : state) (rs : list record) : state :=
  {| processed_count := processed_count st;
     skipped_items := skipped_items st;
     scraped_records := rs;
     driver_calls := driver_calls st |}.

(** *** One iteration of the loop over the terms *)

(** Lines 149-155: did the search land on a detail page of the term? *)
Definition landed_on_detail_page (cfg : config) (search_term : string) (w : world)
  : py bool :=
  match find_title w (detail_page_name_selector cfg) with
  | Raise NoSuchElementException => Ok false
  | Raise e => Raise e
  | Ok page_name_element =>
      match text page_name_element with
      | Raise NoSuchElementException => Ok false
      | Raise e => Raise e
      | Ok t => Ok (contains (lower_str search_term) (lower_str t))
      end
  end.

(** Lines 164-168: the loop over the result links; the answer is the index of
    the link that was clicked. *)
Fixpoint click_matching (search_term : string) (result_links : list element)
         (i : nat) : py (option nat) :=
  match result_links with
  | [] => Ok None
  | link :: rest =>
      match text link with
      | Raise e => Raise e
      | Ok t =>
          if contains (lower_str search_term) (lower_str t)
          then match click link with
               | Raise e => Raise e
               | Ok _ => Ok (Some i)
               end
          else click_matching search_term rest (S i)
      end
  end.

Inductive navigation : Type :=
| OnDetailPage
| NoMatchingLink
| NoSearchResults.

(** Lines 158-177. *)
Definition open_result (cfg : config) (search_term : string) (w : world)
  : py navigation :=
  match wait_results w (search_results_link_selector cfg) with
  | Raise TimeoutException | Raise NoSuchElementException => Ok NoSearchResults
  | Raise e => Raise e
  | Ok result_links =>
      match click_matching search_term result_links 0 with
      | Raise TimeoutException | Raise NoSuchElementException => Ok NoSearchResults
      | Raise e => Raise e
      | Ok (Some _) => Ok OnDetailPage
      | Ok None => Ok NoMatchingLink
      end
  end.

(** Lines 182-203: the loop over the roles; every exception is caught inside
    the loop. *)
Fixpoint extract_roles (original_term : string) (w : world)
         (roles : list (string * string))
         (scraped : list record) (found_data : bool) : list record * bool :=
  match roles with
  | [] => (scraped, found_data)
  | (job_title, xpath) :: rest =>
      match find_field w xpath with
      | Raise _ => extract_roles original_term w rest scraped found_data
      | Ok td_element =>
          match extract_contact_info td_element with
          | Raise _ => extract_roles original_term w rest scraped found_data
          | Ok (name, phone, email) =>
              if String.eqb name NA
              then extract_roles original_term w rest scraped found_data
              else extract_roles original_term w rest
                     (scraped ++ [ {| r_term := original_term;
                                      r_name := name;
                                      r_job_title := job_title;
                                      r_email := email;
                                      r_phone := phone |} ])
                     true
          end
      end
  end.

(** How an iteration hands control back to the loop. *)
Inductive control : Type :=
| Continue               (* the next term *)
| Break                  (* line 134 *)
| Fatal (e : exn).       (* an exception that reaches line 212 *)

(** Lines 179-210. *)
Definition extract_term (cfg : config) (st : state) (original_term : string)
           (w : world) : state :=
  let '(scraped, found_data) :=
    extract_roles original_term w (contact_data_xpaths cfg)
                  (scraped_records st) false in
  let st := with_records st scraped in
  if found_data then processed st
  else skip st original_term "No contact data found".

(** Lines 124-210. *)
Definition iteration (cfg : config) (st : state) (original_term : string)
           (w : world) : state * control :=
  let st := call st (DGet (url cfg)) in
  match get w (url cfg) with
  | Raise e => (st, Fatal e)
  | Ok _ =>
  match wait_search_bar w (search_bar_id cfg) with
  | Raise TimeoutException => (st, Break)
  | Raise e => (st, Fatal e)
  | Ok _ =>
  let search_term := clean_search_term original_term in
  match send_keys w search_term with
  | Raise e => (st, Fatal e)
  | Ok _ =>
  match landed_on_detail_page cfg search_term w with
  | Raise e => (st, Fatal e)
  | Ok true => (extract_term cfg st original_term w, Continue)
  | Ok false =>
      match open_result cfg search_term w with
      | Raise e => (st, Fatal e)
      | Ok NoMatchingLink => (skip st original_term "No matching link", Continue)
      | Ok NoSearchResults => (skip st original_term "No search results", Continue)
      | Ok OnDetailPage => (extract_term cfg st original_term w, Continue)
      end
  end end end end.

(** Lines 123-213: [browser t] is what the browser answers while the term
    [t] is visited. *)
Fixpoint loop (cfg : config) (browser : string -> world) (st : state)
         (search_terms : list string) : state * control :=
  match search_terms with
  | [] => (st, Continue)
  | original_term :: rest =>
      match iteration cfg st original_term (browser original_term) with
      | (st', Continue) => loop cfg browser st' rest
      | stop => stop
      end
  end.

(** *** The dataset *)

(** A cell of the sheet; [None] is pandas' NaN (an empty cell). *)
Definition cell : Type := option string.

Record dataframe : Type := {
  columns : list string;
  rows : list (list cell)
}.

Fixpoint index_of (name : string) (cols : list string) : option nat :=
  match cols with
  | [] => None
  | c :: cs =>
      if String.eqb c name then Some 0
      else match index_of name cs with
           | Some i => Some (S i)
           | None => None
           end
  end.

Definition key_of (i : nat) (row : list cell) : cell := nth i row None.

(** [.dropna()] *)
Fixpoint dropna (cells : list cell) : list string :=
  match cells with
  | [] => []
  | Some v :: cs => v :: dropna cs
  | None :: cs => dropna cs
  end.

(** [.unique()]: the values in the order of their first occurrence. *)
Fixpoint unique (l : list string) : list string :=
  match l with
  | [] => []
  | x :: r => x :: filter (fun y => negb (String.eqb y x)) (unique r)
  end.

(** [df[config['input_column']].dropna().unique().tolist()], for the key
    column at index [i]. *)
Definition search_terms_of (df : dataframe) (i : nat) : list string :=
  unique (dropna (map (key_of i) (rows df))).

(** A row of the merged frame: the original row, and the scraped columns
    (blank when no record has the row's key). *)
Definition merged_row : Type := list cell * option record.

Definition records_for (key : string) (scraped : list record) : list record :=
  filter (fun r => String.eqb (r_term r) key) scraped.

(** [pd.merge(df, scraped_df, on=key, how='left')], row by row. *)
Definition merge_row (i : nat) (scraped : list record) (row : list cell)
  : list merged_row :=
  match key_of i row with
  | None => [(row, None)]
  | Some key =>
      match records_for key scraped with
      | [] => [(row, None)]
      | ms => map (fun m => (row, Some m)) ms
      end
  end.

Definition merge (df : dataframe) (i : nat) (scraped : list record)
  : list merged_row :=
  flat_map (merge_row i scraped) (rows df).

(** *** [run_scraper_with_config] *)

(** The text written to [skipped_items.txt]. *)
Fixpoint report_text (skipped : list string) : string :=
  match skipped with
  | [] => ""
  | s :: rest => (s +++ String newline "") +++ report_text rest
  end.

Inductive ending : Type :=
| ReturnedEarly          (* lines 87, 91, 96, 101, or 118 when Firefox() raised:
                            no browser exists *)
| BrowserLeftOpen        (* line 118 when maximize_window() raised: the
                            browser was started and is not quit *)
| Ran (c : control).     (* the loop ran and ended with [c] *)

Record outcome : Type := {
  final : state;
  ended : ending;
  to_excel_call : option (list merged_row);  (* merged_df.to_excel(input_file) *)
  skipped_file : option string;              (* the text of skipped_items.txt *)
  escaped : option exn                       (* the exception that leaves the function *)
}.

Definition returned_early : outcome :=
  {| final := initial; ended := ReturnedEarly;
     to_excel_call := None; skipped_file := None; escaped := None |}.

(** The state when the loop starts: the browser exists and
    [driver.maximize_window()] (line 113) was called. *)
Definition started : state := call initial DMaximize.

(** Line 118 after [maximize_window()] raised: nothing is written and
    [driver.quit()] is not called. *)
Definition browser_left_open : outcome :=
  {| final := started; ended := BrowserLeftOpen;
     to_excel_call := None; skipped_file := None; escaped := None |}.

(** Lines 215-244, the [finally] block: [driver.quit()] first, not guarded,
    then the two writes.  When [driver.quit()] raises, the exception leaves
    the function and neither write is reached.  [to_excel] and the write of
    the report are recorded as the calls the program makes (an exception of
    [to_excel] is caught at line 227 and changes nothing else). *)
Definition finish (df : dataframe) (i : nat) (st : state) (c : control)
           (quit : py unit) : outcome :=
  let st := call st DQuit in
  match quit with
  | Raise e =>
      {| final := st; ended := Ran c;
         to_excel_call := None; skipped_file := None; escaped := Some e |}
  | Ok _ =>
      {| final := st;
         ended := Ran c;
         to_excel_call :=
           match scraped_records st with
           | [] => None
           | rs => Some (merge df i rs)
           end;
         skipped_file :=
           match skipped_items st with
           | [] => None
           | sk => Some (report_text sk)
           end;
         escaped := None |}
  end.

(** [firefox] is what [webdriver.Firefox()] answers (line 112),
    [maximize_window] what [driver.maximize_window()] answers (line 113) and
    [quit] what [driver.quit()] answers (line 218). *)
Definition run_scraper_with_config (cfg : config)
           (read_excel : py dataframe) (firefox maximize_window quit : py unit)
           (browser : string -> world) : outcome :=
  match read_excel with
  | Raise _ => returned_early
  | Ok df =>
      match index_of (input_column cfg) (columns df) with
      | None => returned_early
      | Some i =>
          match search_terms_of df i with
          | [] => returned_early
          | search_terms =>
              match firefox with
              | Raise _ => returned_early
              | Ok _ =>
                  match maximize_window with
                  | Raise _ => browser_left_open
                  | Ok _ =>
                      let '(st, c) := loop cfg browser started search_terms in
                      finish df i st c quit
                  end
              end
          end
      end
  end.

End Scraper.

(** ** The link matcher of [contactScraper.py] *)

Module ContactScraper.
Import PyStr Scraper.

(** Lines 111-117: a link is clicked when it is displayed and its text
    contains the district name. *)
Fixpoint click_displayed_match (district_name : string)
         (result_links : list element) (i : nat) : py (option nat) :=
  match result_links with
  | [] => Ok None
  | link :: rest =>
      match is_displayed link with
      | Raise e => Raise e
      | Ok false => click_displayed_match district_name rest (S i)
      | Ok true =>
          match text link with
          | Raise e => Raise e
          | Ok t =>
              if contains (lower_str district_name) (lower_str t)
              then match click link with
                   | Raise e => Raise e
                   | Ok _ => Ok (Some i)
                   end
              else click_displayed_match district_name rest (S i)
          end
      end
  end.

End ContactScraper.

(** ** The vocabulary of the specification *)

Module Spec.
Import PyStr Scraper.

(** The outcome of one term.  The program keeps no list of outcomes: a
    processed term adds one to [processed_count], a skipped term adds its
    line to [skipped_items]. *)
Inductive term_outcome : Type :=
| Processed
| Skipped (reason : string).

(** ["<original term> (<reason>)"] *)
Definition skipped_line (original_term reason : string) : string :=
  original_term +++ " (" +++ reason +++ ")".

Fixpoint skipped_lines (outcomes : list (string * term_outcome)) : list string :=
  match outcomes with
  | [] => []
  | (t, Skipped reason) :: rest => skipped_line t reason :: skipped_lines rest
  | (_, Processed) :: rest => skipped_lines rest
  end.

Fixpoint count_processed (outcomes : list (string * term_outcome)) : nat :=
  match outcomes with
  | [] => 0
  | (_, Processed) :: rest => S (count_processed rest)
  | (_, Skipped _) :: rest => count_processed rest
  end.

(** The number of outcomes a run has recorded. *)
Definition outcomes_recorded (st : state) : nat :=
  processed_count st + List.length (skipped_items st).

(** The reasons the program gives for a skip. *)
Definition reasons : list string :=
  ["No matching link"; "No search results"; "No contact data found"].

(** The lines of a text file: the pieces that a newline ends, and a last
    piece without newline when it is not empty. *)
Fixpoint lines_go (current text : string) : list string :=
  match text with
  | EmptyString => if is_empty current then [] else [current]
  | String c text' =>
      if Ascii.eqb c newline then current :: lines_go "" text'
      else lines_go (current +++ String c "") text'
  end.

Definition file_lines (text : string) : list string := lines_go "" text.

Definition has_newline (s : string) : bool :=
  existsb (Ascii.eqb newline) (list_ascii_of_string s).

End Spec.

(** ** Sample pages and sheets *)

Module Samples.
Import PyStr Scraper.

(** A result link with its text, displayed or not, that can be clicked. *)
Definition link (t : string) (shown : bool) : element :=
  {| text := Ok t; is_displayed := Ok shown; click := Ok tt;
     find_mailto := Raise NoSuchElementException |}.

(** A contact block with its text and, possibly, a [mailto:] link. *)
Definition block (t : string) (mail : option string) : element :=
  {| text := Ok t; is_displayed := Ok true; click := Ok tt;
     find_mailto :=
       match mail with
       | Some h => Ok {| href := Ok (Some h) |}
       | None => Raise NoSuchElementException
       end |}.

(** The entry page loads, the search shows neither a detail page nor result
    links, no contact block exists. *)
Definition no_results : world :=
  {| get := fun _ => Ok tt;
     wait_search_bar := fun _ => Ok tt;
     send_keys := fun _ => Ok tt;
     find_title := fun _ => Raise NoSuchElementException;
     wait_results := fun _ => Raise TimeoutException;
     find_field := fun _ => Raise NoSuchElementException |}.

(** The entry page does not load in time. *)
Definition no_search_bar : world :=
  {| get := fun _ => Ok tt;
     wait_search_bar := fun _ => Raise TimeoutException;
     send_keys := fun _ => Ok tt;
     find_title := fun _ => Raise NoSuchElementException;
     wait_results := fun _ => Raise TimeoutException;
     find_field := fun _ => Raise NoSuchElementException |}.

(** The session is lost: [driver.get] raises. *)
Definition session_lost : world :=
  {| get := fun _ => Raise OtherException;
     wait_search_bar := fun _ => Raise OtherException;
     send_keys := fun _ => Raise OtherException;
     find_title := fun _ => Raise OtherException;
     wait_results := fun _ => Raise OtherException;
     find_field := fun _ => Raise OtherException |}.

(** The search shows result links; the link that is clicked leads to a page
    whose contact blocks are given by [fields]. *)
Definition results (links : list element) (fields : string -> py element) : world :=
  {| get := fun _ => Ok tt;
     wait_search_bar := fun _ => Ok tt;
     send_keys := fun _ => Ok tt;
     find_title := fun _ => Raise NoSuchElementException;
     wait_results := fun _ => Ok links;
     find_field := fields |}.

Definition superintendent_xpath : string :=
  "//th[@class='details-field-label' and contains(text(), 'Superintendent')]/following-sibling::td".

(** A detail page with one block, for the superintendent. *)
Definition superintendent_only (td : element) (xpath : string) : py element :=
  if String.eqb xpath superintendent_xpath then Ok td
  else Raise NoSuchElementException.

Definition jane_block : element :=
  block ("Jane Roe" +++ String newline "") None.

Definition found_jane : world :=
  results [link "Alameda Unified" true] (superintendent_only jane_block).

Definition sheet (names : list string) : dataframe :=
  {| columns := ["District Name"; "Other Data"];
     rows := map (fun n => [Some n; Some "Info"]) names |}.

Definition alameda_links : list element :=
  [link "Alameda Unified" true; link "East Alameda" true].

Definition alameda_links_first_hidden : list element :=
  [link "Alameda Unified" false; link "East Alameda" true].

End Samples.

(** ** The rest of [contactScraper.py]: [search_districts_and_click_link_on_cde] *)

Module Cde.
Import PyStr Scraper ContactScraper.

Definition CDE_URL : string := "https://www.cde.ca.gov/SchoolDirectory/".
Definition SEARCH_BAR_ID : string := "AllSearchField".
Definition DISTRICT_LINK_SELECTOR : string := "table.table-bordered tbody tr td a".

(** The calls on the driver that move the session. *)
Inductive nav : Type :=
| Get (u : string)      (* driver.get(u) *)
| Back                  (* driver.back() *)
| Quit.                 (* driver.quit() *)

(** What the function leaves behind: the names announced at line 73 and the
    calls made on the driver, in order. *)
Record session : Type := {
  announced : list string;
  navs : list nav
}.

Definition start : session := {| announced := []; navs := [] |}.

Definition announce (s : session) (district_name : string) : session :=
  {| announced := announced s ++ [district_name]; navs := navs s |}.

Definition nav_call (s : session) (c : nav) : session :=
  {| announced := announced s; navs := navs s ++ [c] |}.

(** What the browser answers during the visit of one name, one answer per
    place of the loop body that calls it (each place is reached at most once
    in a visit). *)
Record answers : Type := {
  wait_bar : py unit;               (* line 76 *)
  type_name : string -> py unit;    (* lines 79-85 *)
  wait_clickable : py unit;         (* line 91 *)
  get_after_timeout : py unit;      (* line 96 *)
  find_elements : py (list element);(* line 105 *)
  back : py unit;                   (* line 125 *)
  wait_bar_after_back : py unit;    (* line 127 *)
  get_no_link : py unit;            (* line 133 *)
  wait_bar_no_link : py unit;       (* line 134 *)
  get_on_error : py unit;           (* lines 140, 144, 148 *)
  get_recover : py unit;            (* line 155 *)
  wait_bar_recover : py unit        (* line 156 *)
}.

(** Lines 101-135, the body of the inner [try]: the session it leaves, and
    the exception it raises, if any. *)
Definition find_and_click (s : session) (district_name : string) (w : answers)
  : session * py unit :=
  match find_elements w with
  | Raise e => (s, Raise e)
  | Ok result_links =>
      match click_displayed_match district_name result_links 0 with
      | Raise e => (s, Raise e)
      | Ok (Some _) =>
          let s := nav_call s Back in
          match back w with
          | Raise e => (s, Raise e)
          | Ok _ =>
              match wait_bar_after_back w with
              | Raise e => (s, Raise e)
              | Ok _ => (s, Ok tt)
              end
          end
      | Ok None =>
          let s := nav_call s (Get CDE_URL) in
          match get_no_link w with
          | Raise e => (s, Raise e)
          | Ok _ =>
              match wait_bar_no_link w with
              | Raise e => (s, Raise e)
              | Ok _ => (s, Ok tt)
              end
          end
      end
  end.

(** Lines 100-149: the inner [try] with its three [except] clauses, which
    all call [driver.get(CDE_URL)] and go to the next name. *)
Definition link_step (s : session) (district_name : string) (w : answers)
  : session * py unit :=
  match find_and_click s district_name w with
  | (s', Ok _) => (s', Ok tt)
  | (s', Raise _) =>
      let s' := nav_call s' (Get CDE_URL) in
      match get_on_error w with
      | Raise e => (s', Raise e)
      | Ok _ => (s', Ok tt)
      end
  end.

(** Lines 75-149, the body of the outer [try] of the loop. *)
Definition body (s : session) (district_name : string) (w : answers)
  : session * py unit :=
  match wait_bar w with
  | Raise e => (s, Raise e)
  | Ok _ =>
  match type_name w district_name with
  | Raise e => (s, Raise e)
  | Ok _ =>
  match wait_clickable w with
  | Raise TimeoutException =>
      let s := nav_call s (Get CDE_URL) in
      match get_after_timeout w with
      | Raise e => (s, Raise e)
      | Ok _ => (s, Ok tt)
      end
  | Raise e => (s, Raise e)
  | Ok _ => link_step s district_name w
  end end end.

(** Lines 72-159: one turn of the loop, with the handler of line 151. *)
Definition visit_name (s : session) (district_name : string) (w : answers)
  : session * py unit :=
  let s := announce s district_name in
  match body s district_name w with
  | (s', Ok _) => (s', Ok tt)
  | (s', Raise _) =>
      let s' := nav_call s' (Get CDE_URL) in
      match get_recover w with
      | Raise _ => (s', Ok tt)                 (* except: pass *)
      | Ok _ =>
          match wait_bar_recover w with
          | Raise _ => (s', Ok tt)             (* except: pass *)
          | Ok _ => (s', Ok tt)
          end
      end
  end.

(** Lines 72-161: an exception that leaves a turn ends the loop. *)
Fixpoint visit_names (browser : string -> answers) (s : session)
         (district_names : list string) : session * py unit :=
  match district_names with
  | [] => (s, Ok tt)
  | district_name :: rest =>
      match visit_name s district_name (browser district_name) with
      | (s', Ok _) => visit_names browser s' rest
      | stop => stop
      end
  end.

(** Lines 33-41: the file is read as CSV, and as Excel when that fails. *)
Definition read_districts (read_csv read_excel : py dataframe) : py dataframe :=
  match read_csv with
  | Ok df => Ok df
  | Raise _ => read_excel
  end.

Definition search_districts_and_click_link_on_cde
           (read_csv read_excel : py dataframe) (district_column_name : string)
           (firefox maximize_window first_get : py unit)
           (browser : string -> answers) : session :=
  match read_districts read_csv read_excel with
  | Raise _ => start
  | Ok df =>
      match index_of district_column_name (columns df) with
      | None => start
      | Some i =>
          match search_terms_of df i with
          | [] => start
          | district_names =>
              match firefox with
              | Raise _ => start               (* driver is None: no quit *)
              | Ok _ =>
                  match maximize_window with
                  | Raise _ => nav_call start Quit
                  | Ok _ =>
                      let s := nav_call start (Get CDE_URL) in
                      match first_get with
                      | Raise _ => nav_call s Quit
                      | Ok _ =>
                          nav_call (fst (visit_names browser s district_names)) Quit
                      end
                  end
              end
          end
      end
  end.

End Cde.

(** Sample answers of the browser for [contactScraper.py]. *)

Module CdeSamples.
Import PyStr Scraper Cde.

(** Every call succeeds and the search shows the given links. *)
Definition shows (links : list element) : answers :=
  {| wait_bar := Ok tt;
     type_name := fun _ => Ok tt;
     wait_clickable := Ok tt;
     get_after_timeout := Ok tt;
     find_elements := Ok links;
     back := Ok tt;
     wait_bar_after_back := Ok tt;
     get_no_link := Ok tt;
     wait_bar_no_link := Ok tt;
     get_on_error := Ok tt;
     get_recover := Ok tt;
     wait_bar_recover := Ok tt |}.

(** The session is lost: every call raises. *)
Definition lost : answers :=
  {| wait_bar := Raise OtherException;
     type_name := fun _ => Raise OtherException;
     wait_clickable := Raise OtherException;
     get_after_timeout := Raise OtherException;
     find_elements := Raise OtherException;
     back := Raise OtherException;
     wait_bar_after_back := Raise OtherException;
     get_no_link := Raise OtherException;
     wait_bar_no_link := Raise OtherException;
     get_on_error := Raise OtherException;
     get_recover := Raise OtherException;
     wait_bar_recover := Raise OtherException |}.

Definition districts : dataframe :=
  {| columns := ["District"; "Contact"];
     rows := [[Some "Manteca Unified"; Some "John Doe"];
              [Some "Anaheim Union High"; Some "Jane Smith"]] |}.

End CdeSamples.

(** ** Measures used in the statements *)

Module Measures.
Import PyStr Scraper.

(** The number of digits of a text. *)
Fixpoint count_digits (s : string) : nat :=
  match s with
  | EmptyString => 0
  | String c s' => (if is_digit c then 1 else 0) + count_digits s'
  end.

(** Does a record belong to the term? *)
Definition has_record (scraped : list record) (t : string) : bool :=
  existsb (fun r => String.eqb (r_term r) t) scraped.

(** Every match of [r] consumes a text of [dg] digits and of [lo] to [hi]
    characters. *)
Definition consumes (r : Re.regex) (dg lo hi : nat) : Prop :=
  forall s rest,
    Re.matches r s rest ->
    exists m,
      s = m +++ rest /\ count_digits m = dg
      /\ lo <= String.length m <= hi.

(** The record one role yields for a term, if any: lines 183-199 for one
    entry of [contact_data_xpaths]. *)
Definition role_record (original_term : string) (w : world)
           (role : string * string) : list record :=
  match find_field w (snd role) with
  | Raise _ => []
  | Ok td_element =>
      match extract_contact_info td_element with
      | Raise _ => []
      | Ok (name, phone, email) =>
          if String.eqb name NA then []
          else [ {| r_term := original_term;
                    r_name := name;
                    r_job_title := fst role;
                    r_email := email;
                    r_phone := phone |} ]
      end
  end.

(** The loop of [contactScraper.py] passes over a link: it is hidden, or it
    is displayed and its text, once read, does not contain the name. *)
Definition passed_over (name : string) (l : element) : Prop :=
  is_displayed l = Ok false
  \/ (is_displayed l = Ok true
      /\ exists t, text l = Ok t
                   /\ contains (lower_str name) (lower_str t) = false).

Definition is_nil {A : Type} (l : list A) : bool :=
  match l with [] => true | _ => false end.

End Measures.

(** * Properties *)

(** ** Facts on the string methods *)

Module PyStrFacts.
Import PyStr.

Lemma is_empty_true (s : string) : is_empty s = true <-> s = "".
Proof. destruct s; simpl; split; congruence. Qed.

Lemma lstrip_head (s : string) c r :
  lstrip s = String c r -> is_space c = false.
Proof.
  induction s as [|a s IH]; simpl; [discriminate|].
  destruct (is_space a) eqn:E; [exact IH|].
  intros H; injection H as -> _; exact E.
Qed.

Lemma lstrip_fixed_cons c r :
  is_space c = false -> lstrip (String c r) = String c r.
Proof. intros H; simpl; rewrite H; reflexivity. Qed.

Lemma lstrip_idem (s : string) : lstrip (lstrip s) = lstrip s.
Proof.
  destruct (lstrip s) as [|c r] eqn:E; [reflexivity|].
  apply lstrip_fixed_cons, (lstrip_head s c r E).
Qed.

Lemma lstrip_length (s : string) : String.length (lstrip s) <= String.length s.
Proof.
  induction s as [|a s IH]; simpl; [lia|].
  destruct (is_space a); simpl; lia.
Qed.

Lemma rstrip_cons c r :
  rstrip (String c r)
  = if is_empty (rstrip r) && is_space c then "" else String c (rstrip r).
Proof.
  simpl; destruct (rstrip r); simpl; [destruct (is_space c)|]; reflexivity.
Qed.

Lemma rstrip_cons_ns c r :
  is_space c = false -> rstrip (String c r) = String c (rstrip r).
Proof.
  intros H; rewrite rstrip_cons, H, andb_false_r; reflexivity.
Qed.

Lemma rstrip_idem (s : string) : rstrip (rstrip s) = rstrip s.
Proof.
  induction s as [|c r IH]; [reflexivity|].
  rewrite rstrip_cons.
  destruct (is_empty (rstrip r) && is_space c) eqn:E; [reflexivity|].
  rewrite rstrip_cons, IH, E; reflexivity.
Qed.

Lemma rstrip_length (s : string) : String.length (rstrip s) <= String.length s.
Proof.
  induction s as [|c r IH]; [simpl; lia|].
  rewrite rstrip_cons.
  destruct (is_empty (rstrip r) && is_space c); simpl; lia.
Qed.

(** A string is headed when it starts with a character that is no space. *)
Lemma rstrip_headed c r :
  is_space c = false -> exists r', rstrip (String c r) = String c r'.
Proof. intros H; rewrite (rstrip_cons_ns _ _ H); eauto. Qed.

Lemma lstrip_rstrip (s : string) :
  lstrip s = s -> lstrip (rstrip s) = rstrip s.
Proof.
  destruct s as [|c r]; [reflexivity|].
  intros H.
  assert (Hc : is_space c = false) by (apply (lstrip_head _ _ _ H)).
  rewrite (rstrip_cons_ns _ _ Hc). apply lstrip_fixed_cons, Hc.
Qed.

Lemma strip_idem (s : string) : strip (strip s) = strip s.
Proof.
  unfold strip.
  rewrite (lstrip_rstrip (lstrip s) (lstrip_idem s)).
  apply rstrip_idem.
Qed.

Lemma strip_length (s : string) : String.length (strip s) <= String.length s.
Proof.
  unfold strip.
  pose proof (rstrip_length (lstrip s)); pose proof (lstrip_length s); lia.
Qed.

Lemma strip_headed c r :
  is_space c = false -> exists r', strip (String c r) = String c r'.
Proof.
  intros H; unfold strip; rewrite (lstrip_fixed_cons _ _ H).
  apply rstrip_headed, H.
Qed.

Lemma strip_nonempty_headed (s : string) :
  strip s <> "" -> exists c r, strip s = String c r /\ is_space c = false.
Proof.
  unfold strip; intros H.
  destruct (lstrip s) as [|c r] eqn:E; [exfalso; apply H; reflexivity|].
  pose proof (lstrip_head _ _ _ E) as Hc.
  rewrite (rstrip_cons_ns _ _ Hc); eauto.
Qed.

Lemma lstrip_empty_iff (s : string) :
  lstrip s = "" <-> forall c, In c (list_ascii_of_string s) -> is_space c = true.
Proof.
  induction s as [|a s IH]; simpl.
  - split; [intros _ c []|reflexivity].
  - destruct (is_space a) eqn:E.
    + rewrite IH; split.
      * intros H c [<-|Hc]; auto.
      * intros H c Hc; auto.
    + split; [discriminate|].
      intros H; rewrite (H a) in E; [discriminate|auto].
Qed.

Lemma strip_empty_iff (s : string) :
  strip s = "" <-> forall c, In c (list_ascii_of_string s) -> is_space c = true.
Proof.
  rewrite <- lstrip_empty_iff; unfold strip; split.
  - intros H; destruct (lstrip s) as [|c r] eqn:E; [reflexivity|].
    rewrite (rstrip_cons_ns _ _ (lstrip_head _ _ _ E)) in H; discriminate.
  - intros ->; reflexivity.
Qed.

Lemma drop_length (n : nat) (s : string) :
  String.length (drop n s) = String.length s - n.
Proof.
  revert s; induction n as [|n IH]; intros [|c s]; simpl; auto.
Qed.

Lemma append_length (a b : string) :
  String.length (a +++ b) = String.length a + String.length b.
Proof. induction a; simpl; auto. Qed.

Lemma take_length_app (pre rest : string) :
  take (String.length pre) (pre +++ rest) = pre.
Proof.
  induction pre as [|c pre IH]; simpl; [destruct rest; reflexivity|].
  f_equal; exact IH.
Qed.

Lemma take_app_length (pre rest : string) :
  take (String.length (pre +++ rest) - String.length rest) (pre +++ rest) = pre.
Proof.
  rewrite append_length.
  replace (String.length pre + String.length rest - String.length rest)
    with (String.length pre) by lia.
  apply take_length_app.
Qed.

Lemma append_assoc (a b c : string) : (a +++ b) +++ c = a +++ (b +++ c).
Proof. induction a; simpl; congruence. Qed.

Lemma append_nil_r (a : string) : a +++ "" = a.
Proof. induction a; simpl; congruence. Qed.

End PyStrFacts.

(** ** Facts on the matcher *)

Module ReFacts.
Import PyStr Re PyStrFacts.

Lemma plus_loop_sound {A} p s (k : string -> option A) x :
  plus_loop p s k = Some x ->
  exists rest, matches (Plus p) s rest /\ k rest = Some x.
Proof.
  revert x; induction s as [|c s IH]; simpl; intros x; [discriminate|].
  destruct (p c) eqn:Hp; [|discriminate].
  destruct (plus_loop p s k) as [y|] eqn:E.
  - intros H; injection H as <-.
    destruct (IH y eq_refl) as (rest & Hm & Hk).
    exists rest; split; [apply M_plus_more; assumption|assumption].
  - intros H; exists s; split; [apply M_plus_one; assumption|assumption].
Qed.

Lemma exec_sound {A} r : forall s (k : string -> option A) x,
  exec r s k = Some x ->
  exists rest, matches r s rest /\ k rest = Some x.
Proof.
  induction r as [p|a IHa b IHb|a IHa|p| |]; simpl; intros s k x H.
  - destruct s as [|c s]; [discriminate|].
    destruct (p c) eqn:Hp; [|discriminate].
    exists s; split; [constructor; assumption|assumption].
  - destruct (IHa _ _ _ H) as (s1 & Ha & H1).
    destruct (IHb _ _ _ H1) as (s2 & Hb & H2).
    exists s2; split; [econstructor; eassumption|assumption].
  - destruct (exec a s k) as [y|] eqn:E.
    + injection H as <-.
      destruct (IHa _ _ _ E) as (s1 & Ha & H1).
      exists s1; split; [apply M_opt_some; assumption|assumption].
    + exists s; split; [apply M_opt_none|assumption].
  - apply plus_loop_sound; assumption.
  - destruct (at_eol s) eqn:E; [|discriminate].
    exists s; split; [constructor; assumption|assumption].
  - exists s; split; [constructor|assumption].
Qed.

Lemma plus_loop_complete {A} p s rest (k : string -> option A) :
  matches (Plus p) s rest -> k rest <> None -> plus_loop p s k <> None.
Proof.
  intros Hm; remember (Plus p) as r eqn:Er; revert Er.
  induction Hm; intros Er Hk; try discriminate; injection Er as ->; simpl;
    rewrite H.
  - destruct (plus_loop p s k); [discriminate|assumption].
  - specialize (IHHm eq_refl Hk).
    destruct (plus_loop p s k); [discriminate|congruence].
Qed.

Lemma exec_complete {A} r s rest :
  matches r s rest ->
  forall (k : string -> option A), k rest <> None -> exec r s k <> None.
Proof.
  induction 1; intros k Hk; simpl.
  - rewrite H; assumption.
  - apply IHmatches1, IHmatches2, Hk.
  - specialize (IHmatches k Hk).
    destruct (exec a s k); [discriminate|congruence].
  - destruct (exec a s k); [discriminate|assumption].
  - apply (plus_loop_complete p (String c s) s k); [apply M_plus_one|]; assumption.
  - apply (plus_loop_complete p (String c s) s1 k); [apply M_plus_more|]; assumption.
  - rewrite H; assumption.
  - assumption.
Qed.

(** What a match leaves is a suffix of what it was given. *)
Lemma matches_suffix r s rest :
  matches r s rest -> exists pre, s = pre +++ rest.
Proof.
  induction 1.
  - exists (String c ""); reflexivity.
  - destruct IHmatches1 as (p1 & ->), IHmatches2 as (p2 & ->).
    exists (p1 +++ p2); symmetry; apply append_assoc.
  - assumption.
  - exists ""; reflexivity.
  - exists (String c ""); reflexivity.
  - destruct IHmatches as (p1 & ->). exists (String c p1); reflexivity.
  - exists ""; reflexivity.
  - exists ""; reflexivity.
Qed.

Lemma matches_length r s rest :
  matches r s rest -> String.length rest <= String.length s.
Proof.
  intros H; destruct (matches_suffix _ _ _ H) as (pre & ->).
  rewrite append_length; lia.
Qed.

Lemma matches_plus_length p s rest :
  matches (Plus p) s rest -> String.length rest < String.length s.
Proof.
  intros H; remember (Plus p) as r eqn:Er; revert Er.
  induction H; intros Er; try discriminate; simpl; [lia|].
  specialize (IHmatches Er); lia.
Qed.

Lemma match_here_sound r s rest :
  match_here r s = Some rest -> matches r s rest.
Proof.
  intros H; destruct (exec_sound _ _ _ _ H) as (rest' & Hm & E).
  injection E as ->; assumption.
Qed.

Lemma match_here_complete r s rest :
  matches r s rest -> match_here r s <> None.
Proof. intros H; apply (exec_complete _ _ _ H); discriminate. Qed.

(** [search] finds nothing exactly when the pattern matches at no position. *)
Lemma search_none_iff r s :
  search r s = None <->
  forall pre t rest, s = pre +++ t -> ~ matches r t rest.
Proof.
  induction s as [|c s IH]; simpl.
  - destruct (match_here r "") as [rest|] eqn:E; split.
    + discriminate.
    + intros H; exfalso; apply (H "" "" rest eq_refl), match_here_sound, E.
    + intros _ pre t rest Ht Hm.
      destruct pre; [simpl in Ht; subst t|discriminate].
      apply (match_here_complete _ _ _ Hm E).
    + reflexivity.
  - destruct (match_here r (String c s)) as [rest|] eqn:E; split.
    + discriminate.
    + intros H; exfalso.
      apply (H "" (String c s) rest eq_refl), match_here_sound, E.
    + intros Hs pre t rest Ht Hm.
      destruct pre as [|a pre]; simpl in Ht.
      * subst t; apply (match_here_complete _ _ _ Hm E).
      * injection Ht as -> ->.
        apply (proj1 IH Hs pre t rest eq_refl Hm).
    + intros H; apply IH; intros pre t rest -> Hm.
      apply (H (String c pre) t rest eq_refl Hm).
Qed.

Lemma search_eq r s :
  search r s
  = match match_here r s with
    | Some rest => Some (take (String.length s - String.length rest) s)
    | None => match s with
              | EmptyString => None
              | String _ s' => search r s'
              end
    end.
Proof. destruct s; reflexivity. Qed.

(** What [search] finds is a piece of the text on which the pattern
    matches. *)
Lemma search_some r s m :
  search r s = Some m ->
  exists pre rest, s = pre +++ m +++ rest /\ matches r (m +++ rest) rest.
Proof.
  revert m; induction s as [|c s IH]; intros m; rewrite search_eq.
  - destruct (match_here r "") as [rest|] eqn:E; [|discriminate].
    pose proof (match_here_sound _ _ _ E) as Hm.
    destruct (matches_suffix _ _ _ Hm) as (pre & Hp).
    destruct pre; [simpl in Hp; subst rest|discriminate].
    intros H; injection H as <-.
    exists "", ""; split; [reflexivity|exact Hm].
  - destruct (match_here r (String c s)) as [rest|] eqn:E.
    + pose proof (match_here_sound _ _ _ E) as Hm.
      destruct (matches_suffix _ _ _ Hm) as (pre & Hp).
      rewrite Hp, take_app_length.
      intros H; injection H as <-.
      exists "", rest; split; [reflexivity|rewrite <- Hp; exact Hm].
    + intros H; destruct (IH m H) as (pre & rest & -> & Hm).
      exists (String c pre), rest; split; [reflexivity|exact Hm].
Qed.

Lemma search_cons_none r c s :
  search r (String c s) = None ->
  match_here r (String c s) = None /\ search r s = None.
Proof.
  simpl; destruct (match_here r (String c s)); [discriminate|auto].
Qed.

(** [sub] changes nothing when the pattern matches nowhere. *)
Lemma sub_no_match r repl s : search r s = None -> sub r repl s = s.
Proof.
  unfold sub; induction s as [|c s IH]; [reflexivity|].
  intros H; destruct (search_cons_none _ _ _ H) as (E & Hs).
  simpl; rewrite E, (IH Hs); reflexivity.
Qed.

Lemma sub_go_length r repl k s :
  String.length repl <= 1 ->
  String.length (sub_go r repl k s) <= String.length s.
Proof.
  intros Hr; revert k; induction s as [|c s IH]; intros k; [simpl; lia|].
  cbn [sub_go]; destruct k as [|k].
  - destruct (match_here r (String c s)) as [rest|].
    + destruct (String.length (String c s) - String.length rest) as [|n].
      * cbn [String.length]; specialize (IH 0); lia.
      * rewrite append_length; cbn [String.length]; specialize (IH n); lia.
    + cbn [String.length]; specialize (IH 0); lia.
  - cbn [String.length]; specialize (IH k); lia.
Qed.

Lemma sub_length r repl s :
  String.length repl <= 1 -> String.length (sub r repl s) <= String.length s.
Proof. apply sub_go_length. Qed.

(** Removing a pattern whose matches are never empty shortens the text as
    soon as it matches somewhere. *)
Lemma sub_shorter r s :
  (forall t rest, matches r t rest -> String.length rest < String.length t) ->
  search r s <> None ->
  String.length (sub r "" s) < String.length s.
Proof.
  intros Hne; unfold sub; induction s as [|c s IH]; rewrite search_eq.
  - destruct (match_here r "") as [rest|] eqn:E; [|congruence].
    intros _; apply match_here_sound, Hne in E; simpl in E; lia.
  - cbn [sub_go].
    destruct (match_here r (String c s)) as [rest|] eqn:E.
    + intros _; pose proof (Hne _ _ (match_here_sound _ _ _ E)) as Hl.
      destruct (String.length (String c s) - String.length rest) as [|n] eqn:En;
        [lia|].
      cbn [String.append String.length].
      pose proof (sub_go_length r "" n s); simpl in *; lia.
    + intros H; specialize (IH H); cbn [String.length]; lia.
Qed.

(** A pattern that starts with [\s+] does not match at a character that is
    no space. *)
Lemma spaces_first_no_match r c s :
  is_space c = false -> match_here (Cat (Plus is_space) r) (String c s) = None.
Proof. intros H; unfold match_here; simpl; rewrite H; reflexivity. Qed.

Lemma sub_spaces_first_headed r repl c s :
  is_space c = false ->
  sub (Cat (Plus is_space) r) repl (String c s)
  = String c (sub (Cat (Plus is_space) r) repl s).
Proof.
  intros H; unfold sub; simpl sub_go.
  rewrite (spaces_first_no_match r c s H); reflexivity.
Qed.

End ReFacts.

(** ** [clean_search_term] *)

Module CleanFacts.
Import PyStr Re Scraper PyStrFacts ReFacts.

(** The last substitution, [re.sub(r'\s+', ' ', s)], collapses every run of
    spaces into one space; the lemmas named [collapse_] are about it. *)

Lemma plus_loop_spaces_rest (s : string) :
  match plus_loop is_space s (fun rest => Some rest) with
  | Some x => Some x
  | None => Some s
  end = Some (lstrip s).
Proof.
  induction s as [|a s IH]; simpl; [reflexivity|].
  destruct (is_space a); [|reflexivity].
  rewrite IH; reflexivity.
Qed.

Lemma match_here_spaces c s :
  match_here spaces_re (String c s)
  = if is_space c then Some (lstrip s) else None.
Proof.
  unfold match_here, spaces_re; simpl.
  destruct (is_space c); [apply plus_loop_spaces_rest|reflexivity].
Qed.

Lemma sub_go_skip r repl k : forall s,
  k <= String.length s -> sub_go r repl k s = sub_go r repl 0 (drop k s).
Proof.
  induction k as [|k IH]; intros s Hk.
  - destruct s; reflexivity.
  - destruct s as [|c s]; [simpl in Hk; lia|].
    simpl in Hk; cbn [sub_go drop]; apply IH; lia.
Qed.

Lemma lstrip_drop (s : string) :
  drop (String.length s - String.length (lstrip s)) s = lstrip s.
Proof.
  induction s as [|a s IH]; [reflexivity|].
  cbn [lstrip]; destruct (is_space a).
  - pose proof (lstrip_length s).
    replace (String.length (String a s) - String.length (lstrip s))
      with (S (String.length s - String.length (lstrip s)))
      by (cbn [String.length]; lia).
    exact IH.
  - rewrite Nat.sub_diag; reflexivity.
Qed.

Lemma collapse_space c s :
  is_space c = true ->
  sub spaces_re " " (String c s) = String " " (sub spaces_re " " (lstrip s)).
Proof.
  intros H; unfold sub; cbn [sub_go].
  rewrite match_here_spaces, H.
  pose proof (lstrip_length s).
  replace (String.length (String c s) - String.length (lstrip s))
    with (S (String.length s - String.length (lstrip s)))
    by (cbn [String.length]; lia).
  rewrite sub_go_skip by lia.
  rewrite lstrip_drop; reflexivity.
Qed.

Lemma collapse_ns c s :
  is_space c = false ->
  sub spaces_re " " (String c s) = String c (sub spaces_re " " s).
Proof.
  intros H; unfold sub; cbn [sub_go].
  rewrite match_here_spaces, H; reflexivity.
Qed.

Lemma space_is_space : is_space " " = true.
Proof. reflexivity. Qed.

Lemma collapse_lstrip_fixed (s : string) :
  lstrip s = s -> lstrip (sub spaces_re " " s) = sub spaces_re " " s.
Proof.
  destruct s as [|c s]; [reflexivity|].
  intros H; pose proof (lstrip_head _ _ _ H) as Hc.
  rewrite (collapse_ns _ _ Hc); apply lstrip_fixed_cons, Hc.
Qed.

Lemma collapse_idem_bounded (n : nat) : forall s,
  String.length s <= n ->
  sub spaces_re " " (sub spaces_re " " s) = sub spaces_re " " s.
Proof.
  induction n as [|n IH]; intros [|c s] Hn; try reflexivity;
    [simpl in Hn; lia|].
  simpl in Hn.
  destruct (is_space c) eqn:Hc.
  - rewrite (collapse_space _ _ Hc), (collapse_space _ _ space_is_space).
    rewrite (collapse_lstrip_fixed _ (lstrip_idem s)).
    rewrite IH; [reflexivity|].
    pose proof (lstrip_length s); lia.
  - rewrite (collapse_ns _ _ Hc), (collapse_ns _ _ Hc), IH; [reflexivity|lia].
Qed.

Lemma collapse_idem (s : string) :
  sub spaces_re " " (sub spaces_re " " s) = sub spaces_re " " s.
Proof. apply (collapse_idem_bounded (String.length s)); lia. Qed.

(** A text in which every run of spaces is already one space stays so when
    it is stripped. *)
Lemma collapse_fixed_inv c s :
  sub spaces_re " " (String c s) = String c s ->
  sub spaces_re " " s = s /\ (is_space c = true -> lstrip s = s).
Proof.
  destruct (is_space c) eqn:Hc.
  - rewrite (collapse_space _ _ Hc); intros H; injection H as _ H.
    assert (Hl : lstrip s = s).
    { rewrite <- H at 1.
      rewrite (collapse_lstrip_fixed _ (lstrip_idem s)); exact H. }
    rewrite Hl in H; auto.
  - rewrite (collapse_ns _ _ Hc); intros H; injection H as H.
    split; [exact H|discriminate].
Qed.

Lemma collapse_fixed_lstrip (s : string) :
  sub spaces_re " " s = s -> sub spaces_re " " (lstrip s) = lstrip s.
Proof.
  destruct s as [|c s]; [reflexivity|].
  intros H; destruct (collapse_fixed_inv _ _ H) as (Hs & Hl).
  cbn [lstrip]; destruct (is_space c) eqn:Hc; [|exact H].
  rewrite (Hl eq_refl); exact Hs.
Qed.

Lemma collapse_fixed_rstrip (s : string) :
  sub spaces_re " " s = s -> sub spaces_re " " (rstrip s) = rstrip s.
Proof.
  induction s as [|c s IH]; [reflexivity|].
  intros H; destruct (collapse_fixed_inv _ _ H) as (Hs & Hl).
  rewrite rstrip_cons.
  destruct (is_empty (rstrip s) && is_space c) eqn:E; [reflexivity|].
  destruct (is_space c) eqn:Hc.
  - assert (c = " "%char) as ->.
    { rewrite (collapse_space _ _ Hc) in H; injection H as H _; auto. }
    rewrite (collapse_space _ _ Hc).
    rewrite (lstrip_rstrip _ (Hl eq_refl)), (IH Hs); reflexivity.
  - rewrite (collapse_ns _ _ Hc), (IH Hs); reflexivity.
Qed.

Lemma collapse_fixed_strip (s : string) :
  sub spaces_re " " s = s -> sub spaces_re " " (strip s) = strip s.
Proof.
  intros H; unfold strip.
  apply collapse_fixed_rstrip, collapse_fixed_lstrip, H.
Qed.

(** The result of [clean_search_term] is stripped and has single spaces. *)
Lemma clean_stripped (x : string) :
  strip (clean_search_term x) = clean_search_term x.
Proof. unfold clean_search_term; apply strip_idem. Qed.

Lemma clean_collapsed (x : string) :
  sub spaces_re " " (clean_search_term x) = clean_search_term x.
Proof. unfold clean_search_term; apply collapse_fixed_strip, collapse_idem. Qed.

(** Where [\s+school\s+district$] matches, [\s+district$] matches further
    right. *)
Lemma school_district_then_district (s : string) :
  search district_re s = None -> search school_district_re s = None.
Proof.
  rewrite !search_none_iff; intros H pre t rest -> Hm.
  unfold school_district_re in Hm.
  inversion Hm as [|a b s0 s1 s2 Hws Hrest| | | | | |]; subst.
  inversion Hrest as [|a b s0 s2 s3 Hschool Hd| | | | | |]; subst.
  destruct (matches_suffix _ _ _ Hws) as (p1 & ->).
  destruct (matches_suffix _ _ _ Hschool) as (p2 & ->).
  apply (H (pre +++ p1 +++ p2) s2 rest); [|exact Hd].
  rewrite !append_assoc; reflexivity.
Qed.

Lemma district_match_consumes r t rest :
  matches (Cat (Plus is_space) r) t rest ->
  String.length rest < String.length t.
Proof.
  intros Hm; inversion Hm as [|a b s0 s1 s2 Hws Hr| | | | | |]; subst.
  pose proof (matches_plus_length _ _ _ Hws).
  pose proof (matches_length _ _ _ Hr); lia.
Qed.

Lemma clean_fixed_of_no_district (y : string) :
  strip y = y -> sub spaces_re " " y = y ->
  search district_re y = None -> clean_search_term y = y.
Proof.
  intros Hs Hc Hd; unfold clean_search_term.
  rewrite Hs, (sub_no_match _ _ _ (school_district_then_district _ Hd)), Hs.
  rewrite (sub_no_match _ _ _ Hd), Hs, Hc; exact Hs.
Qed.

Lemma clean_length (y : string) :
  String.length (clean_search_term y) <= String.length y.
Proof.
  unfold clean_search_term.
  repeat first [ etransitivity; [apply strip_length|]
               | etransitivity; [apply sub_length; simpl; lia|] ].
  reflexivity.
Qed.

Lemma clean_shorter_of_district (y : string) :
  strip y = y -> search district_re y <> None ->
  String.length (clean_search_term y) < String.length y.
Proof.
  intros Hs Hd; unfold clean_search_term; rewrite Hs.
  eapply Nat.le_lt_trans; [apply strip_length|].
  eapply Nat.le_lt_trans; [apply sub_length; simpl; lia|].
  eapply Nat.le_lt_trans; [apply strip_length|].
  destruct (search school_district_re y) eqn:E.
  - eapply Nat.le_lt_trans; [apply sub_length; simpl; lia|].
    eapply Nat.le_lt_trans; [apply strip_length|].
    apply sub_shorter; [apply district_match_consumes|congruence].
  - rewrite (sub_no_match _ _ _ E), Hs.
    apply sub_shorter; [apply district_match_consumes|exact Hd].
Qed.

(** A term that has a character other than a space is not cleaned to the
    empty string: each step keeps its first character. *)
Lemma clean_headed c r :
  is_space c = false -> exists r', clean_search_term (String c r) = String c r'.
Proof.
  intros Hc; unfold clean_search_term.
  destruct (strip_headed c r Hc) as (r1 & ->).
  unfold school_district_re; rewrite (sub_spaces_first_headed _ _ _ _ Hc).
  destruct (strip_headed c (sub (Cat (Plus is_space)
      (Cat (lit_ci "school") (Cat (Plus is_space) (Cat (lit_ci "district") Eol))))
      "" r1) Hc) as (r2 & ->).
  unfold district_re; rewrite (sub_spaces_first_headed _ _ _ _ Hc).
  destruct (strip_headed c (sub (Cat (Plus is_space) (Cat (lit_ci "district") Eol))
      "" r2) Hc) as (r3 & ->).
  rewrite (collapse_ns _ _ Hc).
  apply strip_headed, Hc.
Qed.

Lemma clean_of_strip (x : string) :
  clean_search_term (strip x) = clean_search_term x.
Proof. unfold clean_search_term; rewrite strip_idem; reflexivity. Qed.

End CleanFacts.

(** ** The loop over the terms *)

Module LoopFacts.
Import PyStr Re Scraper Spec PyStrFacts ReFacts.

(** The records the loop over the roles adds carry the term and a name that
    is not the sentinel; data was found exactly when a record was added. *)
Lemma extract_roles_spec t w roles : forall scraped found,
  exists new,
    extract_roles t w roles scraped found
    = (scraped ++ new, found || match new with [] => false | _ => true end)
    /\ Forall (fun r => r_term r = t /\ r_name r <> NA) new.
Proof.
  induction roles as [|[job_title xpath] roles IH]; intros scraped found.
  - exists []; rewrite app_nil_r, orb_false_r; auto.
  - cbn [extract_roles].
    destruct (find_field w xpath) as [td|]; [|apply IH].
    destruct (extract_contact_info td) as [[[name phone] email]|]; [|apply IH].
    destruct (String.eqb name NA) eqn:E; [apply IH|].
    destruct (IH (scraped ++ [ {| r_term := t; r_name := name;
                                 r_job_title := job_title; r_email := email;
                                 r_phone := phone |} ]) true)
      as (new & -> & Hnew).
    eexists (_ :: new); split.
    + rewrite <- app_assoc, orb_true_r; reflexivity.
    + constructor; [|exact Hnew].
      split; [reflexivity|]; simpl.
      apply String.eqb_neq; exact E.
Qed.

(** What one visit does to the state, whatever the browser answers. *)
Inductive visit (t : string) (st st' : state) : control -> Prop :=
| V_abort c :
    c <> Continue ->
    processed_count st' = processed_count st ->
    skipped_items st' = skipped_items st ->
    scraped_records st' = scraped_records st ->
    visit t st st' c
| V_skipped reason :
    In reason reasons ->
    processed_count st' = processed_count st ->
    skipped_items st' = skipped_items st ++ [skipped_line t reason] ->
    scraped_records st' = scraped_records st ->
    visit t st st' Continue
| V_processed new :
    new <> [] ->
    Forall (fun r => r_term r = t /\ r_name r <> NA) new ->
    processed_count st' = processed_count st + 1 ->
    skipped_items st' = skipped_items st ->
    scraped_records st' = scraped_records st ++ new ->
    visit t st st' Continue.

Lemma extract_term_visit cfg st0 st t w :
  processed_count st = processed_count st0 ->
  skipped_items st = skipped_items st0 ->
  scraped_records st = scraped_records st0 ->
  visit t st0 (extract_term cfg st t w) Continue.
Proof.
  intros Hp Hs Hr; unfold extract_term.
  destruct (extract_roles_spec t w (contact_data_xpaths cfg) (scraped_records st) false)
    as (new & -> & Hnew).
  destruct new as [|r new]; cbn [orb].
  - apply (V_skipped _ _ _ "No contact data found"); simpl;
      [auto|assumption|rewrite Hs; reflexivity|rewrite app_nil_r; assumption].
  - apply (V_processed _ _ _ (r :: new)); simpl;
      [discriminate|assumption|rewrite Hp; reflexivity|assumption
      |rewrite Hr; reflexivity].
Qed.

Lemma iteration_calls cfg st t w :
  driver_calls (fst (iteration cfg st t w)) = driver_calls st ++ [DGet (url cfg)].
Proof.
  unfold iteration, extract_term.
  destruct (get w (url cfg)); [|reflexivity].
  destruct (wait_search_bar w (search_bar_id cfg)) as [|[]]; try reflexivity.
  destruct (send_keys w (clean_search_term t)); [|reflexivity].
  destruct (landed_on_detail_page cfg (clean_search_term t) w) as [[]|];
    try reflexivity.
  - destruct (extract_roles _ _ _ _ _) as [scraped []]; reflexivity.
  - destruct (open_result cfg (clean_search_term t) w) as [[]|]; try reflexivity.
    destruct (extract_roles _ _ _ _ _) as [scraped []]; reflexivity.
Qed.

Lemma iteration_visit cfg st t w :
  visit t st (fst (iteration cfg st t w)) (snd (iteration cfg st t w)).
Proof.
  unfold iteration.
  destruct (get w (url cfg)); [|apply V_abort; simpl; auto; discriminate].
  destruct (wait_search_bar w (search_bar_id cfg)) as [|[]];
    try (apply V_abort; simpl; auto; discriminate).
  destruct (send_keys w (clean_search_term t));
    [|apply V_abort; simpl; auto; discriminate].
  destruct (landed_on_detail_page cfg (clean_search_term t) w) as [[]|];
    [| |apply V_abort; simpl; auto; discriminate].
  - apply extract_term_visit; reflexivity.
  - destruct (open_result cfg (clean_search_term t) w) as [[]|];
      [| | |apply V_abort; simpl; auto; discriminate].
    + apply extract_term_visit; reflexivity.
    + apply (V_skipped _ _ _ "No matching link"); simpl; auto.
    + apply (V_skipped _ _ _ "No search results"); simpl; auto.
Qed.

Lemma loop_cons cfg browser st t rest :
  loop cfg browser st (t :: rest)
  = match snd (iteration cfg st t (browser t)) with
    | Continue => loop cfg browser (fst (iteration cfg st t (browser t))) rest
    | _ => iteration cfg st t (browser t)
    end.
Proof.
  cbn [loop]; destruct (iteration cfg st t (browser t)) as [st' []]; reflexivity.
Qed.

Lemma loop_app cfg browser pre : forall st post,
  loop cfg browser st (pre ++ post)
  = match snd (loop cfg browser st pre) with
    | Continue => loop cfg browser (fst (loop cfg browser st pre)) post
    | _ => loop cfg browser st pre
    end.
Proof.
  induction pre as [|t pre IH]; intros st post; [reflexivity|].
  rewrite <- app_comm_cons, !loop_cons.
  destruct (snd (iteration cfg st t (browser t))) eqn:E; try rewrite E;
    try reflexivity.
  apply IH.
Qed.

Lemma skipped_lines_app a b :
  skipped_lines (a ++ b) = skipped_lines a ++ skipped_lines b.
Proof.
  induction a as [|[t [|reason]] a IH]; simpl; [reflexivity|assumption|].
  rewrite IH; reflexivity.
Qed.

Lemma count_processed_length l :
  count_processed l + List.length (skipped_lines l) = List.length l.
Proof.
  induction l as [|[t [|reason]] l IH]; simpl; lia.
Qed.

(** The loop visits a prefix [done] of the terms, all of them unless it is
    ended early; each visited term has one outcome. *)
Lemma loop_outcomes cfg browser : forall terms st,
  exists done rest outs new,
    terms = done ++ rest
    /\ List.length outs = List.length done
    /\ skipped_items (fst (loop cfg browser st terms))
       = skipped_items st ++ skipped_lines (combine done outs)
    /\ processed_count (fst (loop cfg browser st terms))
       = processed_count st + count_processed (combine done outs)
    /\ scraped_records (fst (loop cfg browser st terms))
       = scraped_records st ++ new
    /\ Forall (fun r => In (r_term r) done /\ r_name r <> NA) new
    /\ (snd (loop cfg browser st terms) = Continue -> rest = [])
    /\ (snd (loop cfg browser st terms) <> Continue -> rest <> []).
Proof.
  induction terms as [|t terms IH]; intros st.
  - exists [], [], [], []; simpl; rewrite !app_nil_r, Nat.add_0_r.
    repeat split; auto; intros; congruence.
  - rewrite loop_cons.
    pose proof (iteration_visit cfg st t (browser t)) as Hv.
    destruct (iteration cfg st t (browser t)) as [st' c]; cbn [fst snd] in *.
    inversion Hv as [c' Hc Hp Hs Hr|reason Hin Hp Hs Hr E|new Hne Hnew Hp Hs Hr E];
      subst.
    + exists [], (t :: terms), [], []; simpl.
      destruct c; try congruence; cbn [fst snd];
        rewrite Hp, Hs, Hr, !app_nil_r, Nat.add_0_r;
        repeat split; auto; intros; congruence.
    + destruct (IH st')
        as (done & rest & outs & new & -> & Hl & Hs' & Hp' & Hr' & Hn & Hc & Ha).
      exists (t :: done), rest, (Skipped reason :: outs), new.
      rewrite Hs', Hp', Hr', Hs, Hp, Hr; simpl.
      rewrite <- app_assoc; simpl.
      repeat split; auto.
      eapply Forall_impl; [|exact Hn]; simpl; intros r [? ?]; auto.
    + destruct (IH st')
        as (done & rest & outs & new' & -> & Hl & Hs' & Hp' & Hr' & Hn & Hc & Ha).
      exists (t :: done), rest, (Processed :: outs), (new ++ new').
      rewrite Hs', Hp', Hr', Hs, Hp, Hr; simpl.
      rewrite <- app_assoc.
      repeat split; auto; [lia|].
      apply Forall_app; split.
      * eapply Forall_impl; [|exact Hnew]; simpl; intros r [? ?]; auto.
      * eapply Forall_impl; [|exact Hn]; simpl; intros r [? ?]; auto.
Qed.

Lemma loop_calls cfg browser : forall terms st,
  exists more,
    driver_calls (fst (loop cfg browser st terms)) = driver_calls st ++ more
    /\ (terms <> [] -> exists later, more = DGet (url cfg) :: later).
Proof.
  induction terms as [|t terms IH]; intros st.
  - exists []; simpl; rewrite app_nil_r; split; [reflexivity|congruence].
  - rewrite loop_cons.
    pose proof (iteration_calls cfg st t (browser t)) as Hc.
    destruct (snd (iteration cfg st t (browser t))).
    + destruct (IH (fst (iteration cfg st t (browser t)))) as (more & -> & _).
      exists (DGet (url cfg) :: more); rewrite Hc, <- app_assoc; simpl.
      split; [reflexivity|eauto].
    + exists [DGet (url cfg)]; split; [exact Hc|eauto].
    + exists [DGet (url cfg)]; split; [exact Hc|eauto].
Qed.

(** *** The terms *)

Lemma unique_incl l x : In x (unique l) -> In x l.
Proof.
  induction l as [|a l IH]; simpl; [auto|].
  intros [->|H]; [auto|].
  apply filter_In in H; destruct H as [H _]; auto.
Qed.

Lemma unique_NoDup l : NoDup (unique l).
Proof.
  induction l as [|a l IH]; simpl; constructor.
  - intros H; apply filter_In in H; destruct H as [_ H].
    rewrite String.eqb_refl in H; discriminate.
  - apply NoDup_filter, IH.
Qed.

Lemma dropna_In cells v : In v (dropna cells) -> In (Some v) cells.
Proof.
  induction cells as [|[a|] cells IH]; simpl; [auto| |auto].
  intros [->|H]; auto.
Qed.

(** Every search term is the key of a row of the sheet. *)
Lemma search_term_has_row df i t :
  In t (search_terms_of df i) ->
  exists row, In row (rows df) /\ key_of i row = Some t.
Proof.
  unfold search_terms_of; intros H.
  apply unique_incl, dropna_In, in_map_iff in H.
  destruct H as (row & Hk & Hin); eauto.
Qed.

(** *** The left join *)

Lemma merge_row_nonempty i scraped row : 1 <= List.length (merge_row i scraped row).
Proof.
  unfold merge_row; destruct (key_of i row) as [key|]; [|simpl; lia].
  destruct (records_for key scraped); [simpl; lia|].
  rewrite length_map; simpl; lia.
Qed.

Lemma merge_length df i scraped :
  List.length (rows df) <= List.length (merge df i scraped).
Proof.
  unfold merge; induction (rows df) as [|row l IH]; simpl; [lia|].
  rewrite length_app; pose proof (merge_row_nonempty i scraped row); lia.
Qed.

Lemma merge_row_some i scraped row row' r :
  In (row', Some r) (merge_row i scraped row)
  <-> row' = row /\ In r scraped /\ key_of i row = Some (r_term r).
Proof.
  unfold merge_row; destruct (key_of i row) as [key|].
  - assert (H : In (row', Some r) (map (fun m => (row, Some m)) (records_for key scraped))
                <-> row' = row /\ In r scraped /\ Some key = Some (r_term r)).
    { rewrite in_map_iff; unfold records_for; split.
      - intros (m & E & Hm); injection E as <- ->.
        apply filter_In in Hm; destruct Hm as [Hm Hk].
        apply String.eqb_eq in Hk; subst; auto.
      - intros (-> & Hr & E); injection E as ->.
        exists r; split; [reflexivity|].
        apply filter_In; split; [assumption|apply String.eqb_refl]. }
    destruct (records_for key scraped) eqn:E; [|exact H].
    rewrite <- H; simpl; split; [intros [?|[]]; discriminate|intros []].
  - simpl; split; [intros [?|[]]; discriminate|intros (_ & _ & ?); discriminate].
Qed.

Lemma merge_row_none i scraped row row' :
  In (row', None) (merge_row i scraped row)
  <-> row' = row /\ forall r, In r scraped -> key_of i row <> Some (r_term r).
Proof.
  unfold merge_row; destruct (key_of i row) as [key|].
  - destruct (records_for key scraped) as [|m ms] eqn:E.
    + simpl; split.
      * intros [H|[]]; injection H as <-; split; [reflexivity|].
        intros r Hr Hk; injection Hk as ->.
        assert (Hin : In r (records_for (r_term r) scraped)).
        { apply filter_In; split; [assumption|apply String.eqb_refl]. }
        rewrite E in Hin; exact Hin.
      * intros [-> _]; auto.
    + split.
      * intros H; apply in_map_iff in H; destruct H as (? & ? & _); discriminate.
      * intros [-> H]; exfalso.
        assert (Hin : In m (records_for key scraped)) by (rewrite E; left; reflexivity).
        apply filter_In in Hin; destruct Hin as [Hin Hk].
        apply String.eqb_eq in Hk; apply (H m Hin); congruence.
  - simpl; split.
    + intros [H|[]]; injection H as <-; split; [reflexivity|discriminate].
    + intros [-> _]; auto.
Qed.

Lemma merge_some df i scraped row r :
  In (row, Some r) (merge df i scraped)
  <-> In row (rows df) /\ In r scraped /\ key_of i row = Some (r_term r).
Proof.
  unfold merge; rewrite in_flat_map; split.
  - intros (x & Hx & H); apply merge_row_some in H; destruct H as (-> & ? & ?); auto.
  - intros (Hx & ? & ?); exists row; split; [assumption|].
    apply merge_row_some; auto.
Qed.

Lemma merge_none df i scraped row :
  In (row, None) (merge df i scraped)
  <-> In row (rows df) /\ forall r, In r scraped -> key_of i row <> Some (r_term r).
Proof.
  unfold merge; rewrite in_flat_map; split.
  - intros (x & Hx & H); apply merge_row_none in H; destruct H as (-> & ?); auto.
  - intros (Hx & ?); exists row; split; [assumption|].
    apply merge_row_none; auto.
Qed.

Lemma merge_keeps_row df i scraped row :
  In row (rows df) -> exists m, In (row, m) (merge df i scraped).
Proof.
  intros Hrow; unfold merge.
  pose proof (merge_row_nonempty i scraped row) as Hl.
  destruct (merge_row i scraped row) as [|[row' m] l] eqn:E; [simpl in Hl; lia|].
  assert (Hin : In (row', m) (merge_row i scraped row)) by (rewrite E; left; reflexivity).
  assert (row' = row) as ->.
  { destruct m as [r|]; [apply merge_row_some in Hin|apply merge_row_none in Hin];
      tauto. }
  exists m; apply in_flat_map; eauto.
Qed.

(** *** The skip report *)

Lemma report_text_app a b : report_text (a ++ b) = report_text a +++ report_text b.
Proof.
  induction a as [|s a IH]; simpl; [reflexivity|].
  rewrite IH, !append_assoc; reflexivity.
Qed.

Lemma lines_go_line current s rest :
  has_newline s = false ->
  lines_go current (s +++ String newline rest) = (current +++ s) :: lines_go "" rest.
Proof.
  revert current; induction s as [|c s IH]; intros current.
  - intros _; cbn [String.append lines_go].
    rewrite Ascii.eqb_refl, append_nil_r; reflexivity.
  - unfold has_newline; cbn [list_ascii_of_string existsb String.append lines_go].
    rewrite (Ascii.eqb_sym newline c).
    destruct (Ascii.eqb c newline); [discriminate|].
    cbn [orb]; intros H.
    rewrite (IH _ H), append_assoc; reflexivity.
Qed.

Lemma file_lines_report skipped :
  Forall (fun s => has_newline s = false) skipped ->
  file_lines (report_text skipped) = skipped.
Proof.
  unfold file_lines; induction 1 as [|s l Hs Hl IH]; [reflexivity|].
  simpl; rewrite append_assoc; simpl.
  rewrite (lines_go_line "" s (report_text l) Hs); simpl.
  rewrite IH; reflexivity.
Qed.

Lemma has_newline_app a b :
  has_newline (a +++ b) = has_newline a || has_newline b.
Proof.
  unfold has_newline; induction a as [|c a IH]; simpl; [reflexivity|].
  rewrite IH, orb_assoc; reflexivity.
Qed.

Lemma skipped_line_no_newline t reason :
  has_newline t = false -> In reason reasons ->
  has_newline (skipped_line t reason) = false.
Proof.
  intros Ht Hr; unfold skipped_line; rewrite !has_newline_app, Ht.
  simpl in Hr; destruct Hr as [<-|[<-|[<-|[]]]]; reflexivity.
Qed.

End LoopFacts.

(** ** The run *)

Module RunFacts.
Import PyStr Re Scraper Spec PyStrFacts ReFacts LoopFacts.

Lemma run_ran cfg df i q browser :
  index_of (input_column cfg) (columns df) = Some i ->
  search_terms_of df i <> [] ->
  run_scraper_with_config cfg (Ok df) (Ok tt) (Ok tt) q browser
  = finish df i (fst (loop cfg browser started (search_terms_of df i)))
                (snd (loop cfg browser started (search_terms_of df i))) q.
Proof.
  intros Hi Ht; unfold run_scraper_with_config; rewrite Hi.
  destruct (search_terms_of df i) as [|t ts] eqn:E; [congruence|].
  destruct (loop cfg browser started (t :: ts)); reflexivity.
Qed.

(** Whatever the inputs, the run either returned before a browser existed,
    or returned after [maximize_window()] raised, or went through [finish]
    with the state the loop left. *)
Lemma run_cases cfg rd fx mx q browser :
  run_scraper_with_config cfg rd fx mx q browser = returned_early
  \/ run_scraper_with_config cfg rd fx mx q browser = browser_left_open
  \/ exists df i,
       rd = Ok df
       /\ index_of (input_column cfg) (columns df) = Some i
       /\ run_scraper_with_config cfg rd fx mx q browser
          = finish df i (fst (loop cfg browser started (search_terms_of df i)))
                        (snd (loop cfg browser started (search_terms_of df i))) q.
Proof.
  unfold run_scraper_with_config.
  destruct rd as [df|]; [|auto].
  destruct (index_of (input_column cfg) (columns df)) as [i|] eqn:Hi; [|auto].
  destruct (search_terms_of df i) as [|t ts] eqn:E; [auto|].
  destruct fx; [|auto].
  destruct mx; [|auto].
  right; right; exists df, i; split; [reflexivity|split; [exact Hi|]].
  rewrite E; destruct (loop cfg browser started (t :: ts)); reflexivity.
Qed.

(** What [finish] leaves in the state: the state of the loop and one more
    driver call. *)
Lemma finish_final df i st c q : final (finish df i st c q) = call st DQuit.
Proof. unfold finish; destruct q; reflexivity. Qed.

Lemma finish_ended df i st c q : ended (finish df i st c q) = Ran c.
Proof. unfold finish; destruct q; reflexivity. Qed.

(** The writes of [finish]: both when [driver.quit()] returns, none when it
    raises. *)
Lemma finish_to_excel df i st c q :
  to_excel_call (finish df i st c q)
  = match q with
    | Raise _ => None
    | Ok _ => match scraped_records st with
              | [] => None
              | rs => Some (merge df i rs)
              end
    end.
Proof. unfold finish; destruct q; reflexivity. Qed.

Lemma finish_skipped_file df i st c q :
  skipped_file (finish df i st c q)
  = match q with
    | Raise _ => None
    | Ok _ => match skipped_items st with
              | [] => None
              | sk => Some (report_text sk)
              end
    end.
Proof. unfold finish; destruct q; reflexivity. Qed.

(** The frame handed to [to_excel] is the merge of the sheet with the records
    the run has collected. *)
Lemma run_to_excel cfg rd fx mx q browser out :
  to_excel_call (run_scraper_with_config cfg rd fx mx q browser) = Some out ->
  exists df i,
    rd = Ok df
    /\ index_of (input_column cfg) (columns df) = Some i
    /\ out = merge df i
               (scraped_records
                  (final (run_scraper_with_config cfg rd fx mx q browser))).
Proof.
  destruct (run_cases cfg rd fx mx q browser) as [E|[E|(df & i & Ed & Hi & E)]];
    rewrite E; [discriminate|discriminate|].
  rewrite finish_to_excel, finish_final; cbn [call scraped_records].
  destruct q; [|discriminate].
  destruct (scraped_records (fst (loop cfg browser started (search_terms_of df i))))
    as [|r0 rs] eqn:Er; [discriminate|].
  intros H; injection H as <-.
  exists df, i; auto.
Qed.

(** The terms the loop goes through: a prefix [done] whose visits all hand
    control to the next term, each with one outcome, and then either nothing,
    or the term whose visit ends the loop. *)
Lemma loop_visited cfg browser : forall terms st,
  exists done rest outs st',
    terms = done ++ rest
    /\ loop cfg browser st done = (st', Continue)
    /\ List.length outs = List.length done
    /\ skipped_items (fst (loop cfg browser st terms))
       = skipped_items st ++ skipped_lines (combine done outs)
    /\ processed_count (fst (loop cfg browser st terms))
       = processed_count st + count_processed (combine done outs)
    /\ (snd (loop cfg browser st terms) = Continue -> rest = [])
    /\ (snd (loop cfg browser st terms) <> Continue ->
        exists t rest',
          rest = t :: rest'
          /\ snd (iteration cfg st' t (browser t))
             = snd (loop cfg browser st terms)).
Proof.
  induction terms as [|t terms IH]; intros st.
  - exists [], [], [], st; simpl; rewrite !app_nil_r, Nat.add_0_r.
    repeat split; auto; intros; congruence.
  - rewrite loop_cons.
    pose proof (iteration_visit cfg st t (browser t)) as Hv.
    destruct (iteration cfg st t (browser t)) as [st1 c] eqn:Eit;
      cbn [fst snd] in *.
    inversion Hv as [c' Hc Hp Hs Hr|reason Hin Hp Hs Hr E|new Hne Hnew Hp Hs Hr E];
      subst.
    + exists [], (t :: terms), [], st; simpl.
      assert (Hres : match c with
                     | Continue => loop cfg browser st1 terms
                     | _ => (st1, c)
                     end = (st1, c)) by (destruct c; [congruence| |]; reflexivity).
      rewrite Hres; cbn [fst snd].
      rewrite Hp, Hs, !app_nil_r, Nat.add_0_r.
      repeat split; auto; [intros; congruence|].
      intros _; exists t, terms; rewrite Eit; auto.
    + destruct (IH st1)
        as (done & rest & outs & st' & -> & Hl & Hlen & Hs' & Hp' & Hc & Ha).
      exists (t :: done), rest, (Skipped reason :: outs), st'.
      rewrite loop_cons, Eit; cbn [fst snd].
      rewrite Hs', Hp', Hs, Hp; simpl.
      rewrite <- app_assoc; simpl.
      repeat split; auto.
    + destruct (IH st1)
        as (done & rest & outs & st' & -> & Hl & Hlen & Hs' & Hp' & Hc & Ha).
      exists (t :: done), rest, (Processed :: outs), st'.
      rewrite loop_cons, Eit; cbn [fst snd].
      rewrite Hs', Hp', Hs, Hp; simpl.
      repeat split; auto; lia.
Qed.

Lemma first_nonempty_line (ls : list string) :
  (exists before line after,
      ls = before ++ line :: after
      /\ (forall b, In b before -> strip b = "")
      /\ strip line <> ""
      /\ exists more,
           map strip (filter (fun l => negb (is_empty (strip l))) ls)
           = strip line :: more)
  \/ ((forall l, In l ls -> strip l = "")
      /\ map strip (filter (fun l => negb (is_empty (strip l))) ls) = []).
Proof.
  induction ls as [|l ls IH]; [right; split; [intros ? []|reflexivity]|].
  cbn [filter]; destruct (strip l) as [|c r] eqn:E; cbn [is_empty negb].
  - destruct IH as [(before & line & after & -> & Hb & Hl & more & Hm)|[Hall Hm]].
    + left; exists (l :: before), line, after; repeat split; auto.
      * intros b [<-|Hin]; auto.
      * eauto.
    + right; split; [|exact Hm].
      intros x [<-|Hin]; auto.
  - left; exists [], l, ls; repeat split.
    + intros ? [].
    + rewrite E; discriminate.
    + cbn [map]; eauto.
Qed.

Lemma click_matching_selects term : forall links i n,
  Scraper.click_matching term links i = Ok (Some n) ->
  exists k link t,
    n = i + k /\ nth_error links k = Some link
    /\ text link = Ok t
    /\ contains (lower_str term) (lower_str t) = true
    /\ forall j l, j < k -> nth_error links j = Some l ->
         exists t', text l = Ok t'
                    /\ contains (lower_str term) (lower_str t') = false.
Proof.
  induction links as [|a links IH]; intros i n; cbn [Scraper.click_matching];
    [discriminate|].
  destruct (text a) as [t|] eqn:Et; [|discriminate].
  destruct (contains (lower_str term) (lower_str t)) eqn:Ec.
  - destruct (click a); [|discriminate].
    intros H; injection H as <-.
    exists 0, a, t; repeat (split; [solve [auto|lia]|]); intros; lia.
  - intros H; destruct (IH _ _ H) as (k & link & t' & -> & Hn & Ht & Hc & Hbefore).
    exists (S k), link, t'; repeat (split; [solve [auto|lia]|]).
    intros [|j] l Hj Hl; simpl in Hl.
    + injection Hl as <-; eauto.
    + apply (Hbefore j l); [lia|assumption].
Qed.

Lemma cde_click_matching_selects name : forall links i n,
  ContactScraper.click_displayed_match name links i = Ok (Some n) ->
  exists k link t,
    n = i + k /\ nth_error links k = Some link
    /\ is_displayed link = Ok true
    /\ text link = Ok t
    /\ contains (lower_str name) (lower_str t) = true
    /\ forall j l, j < k -> nth_error links j = Some l ->
         is_displayed l = Ok false
         \/ exists t', text l = Ok t'
                       /\ contains (lower_str name) (lower_str t') = false.
Proof.
  induction links as [|a links IH]; intros i n;
    cbn [ContactScraper.click_displayed_match]; [discriminate|].
  destruct (is_displayed a) as [[]|] eqn:Ed; [| |discriminate].
  - destruct (text a) as [t|] eqn:Et; [|discriminate].
    destruct (contains (lower_str name) (lower_str t)) eqn:Ec.
    + destruct (click a); [|discriminate].
      intros H; injection H as <-.
      exists 0, a, t; repeat (split; [solve [auto|lia]|]); intros; lia.
    + intros H; destruct (IH _ _ H)
        as (k & link & t' & -> & Hn & Hd & Ht & Hc & Hbefore).
      exists (S k), link, t'; repeat (split; [solve [auto|lia]|]).
      intros [|j] l Hj Hl; simpl in Hl.
      * injection Hl as <-; eauto.
      * apply (Hbefore j l); [lia|assumption].
  - intros H; destruct (IH _ _ H)
      as (k & link & t' & -> & Hn & Hd & Ht & Hc & Hbefore).
    exists (S k), link, t'; repeat (split; [solve [auto|lia]|]).
    intros [|j] l Hj Hl; simpl in Hl.
    + injection Hl as <-; eauto.
    + apply (Hbefore j l); [lia|assumption].
Qed.

(** The example of the specification: both links displayed, the first one
    is clicked, by either matcher. *)
Lemma alameda_first :
  Scraper.click_matching "alameda" Samples.alameda_links 0 = Ok (Some 0)
  /\ ContactScraper.click_displayed_match "alameda" Samples.alameda_links 0 = Ok (Some 0).
Proof. split; reflexivity. Qed.

Lemma loop_skipped_format cfg browser (all : list string) : forall terms st,
  incl terms all ->
  Forall (fun s => exists t reason,
            In t all /\ In reason reasons /\ s = skipped_line t reason)
         (skipped_items st) ->
  Forall (fun s => exists t reason,
            In t all /\ In reason reasons /\ s = skipped_line t reason)
         (skipped_items (fst (loop cfg browser st terms))).
Proof.
  induction terms as [|t terms IH]; intros st Hincl Hst; [exact Hst|].
  rewrite loop_cons.
  pose proof (iteration_visit cfg st t (browser t)) as Hv.
  destruct (iteration cfg st t (browser t)) as [st' c]; cbn [fst snd] in *.
  assert (Ht : In t all) by (apply Hincl; left; reflexivity).
  assert (Hi : incl terms all) by (intros x Hx; apply Hincl; right; exact Hx).
  inversion Hv as [c' Hc Hp Hs Hr|reason Hin Hp Hs Hr E|new Hne Hnew Hp Hs Hr E];
    subst.
  - destruct c; [congruence| |]; cbn [fst]; rewrite Hs; exact Hst.
  - apply IH; [exact Hi|].
    rewrite Hs; apply Forall_app; split; [exact Hst|].
    constructor; [|constructor].
    exists t, reason; auto.
  - apply IH; [exact Hi|]; rewrite Hs; exact Hst.
Qed.

End RunFacts.

(** ** The claims of the specification *)

Module Claims.
Import PyStr Re Scraper Spec Samples.
Import PyStrFacts ReFacts CleanFacts LoopFacts RunFacts.

(** *** C1 *)

(** C1, as the code has it: the search terms are unique, and a run records
    exactly one outcome for each term whose visit it completed (a line of
    [skipped_items] for a skipped term, one unit of [processed_count] for a
    processed one), and none for any other term.  The completed terms are
    the prefix [done] of the terms whose visits all hand control to the
    next term: all the terms when the loop runs to its end; the terms before
    the one whose visit ends the loop when line 134 or an exception ends it
    early; none when the run returns before the loop. *)
Theorem outcomes_cover_visited_terms cfg df i fx mx q browser :
  index_of (input_column cfg) (columns df) = Some i ->
  let o := run_scraper_with_config cfg (Ok df) fx mx q browser in
  let terms := search_terms_of df i in
  NoDup terms
  /\ exists done rest outs st,
       terms = done ++ rest
       /\ loop cfg browser started done = (st, Continue)
       /\ List.length outs = List.length done
       /\ skipped_items (final o) = skipped_lines (combine done outs)
       /\ processed_count (final o) = count_processed (combine done outs)
       /\ outcomes_recorded (final o) = List.length done
       /\ (ended o = Ran Continue -> rest = [])
       /\ (forall c, ended o = Ran c -> c <> Continue ->
             exists t rest',
               rest = t :: rest'
               /\ snd (iteration cfg st t (browser t)) = c)
       /\ (ended o = ReturnedEarly \/ ended o = BrowserLeftOpen -> done = []).
Proof.
  intros Hi o terms; split; [apply unique_NoDup|].
  destruct (run_cases cfg (Ok df) fx mx q browser)
    as [E|[E|(df' & i' & Ed & Hi' & E)]].
  - exists [], terms, [], started; subst o; rewrite E; simpl.
    repeat split; auto; intros; discriminate.
  - exists [], terms, [], started; subst o; rewrite E; simpl.
    repeat split; auto; intros; discriminate.
  - injection Ed as <-.
    assert (i' = i) as -> by congruence.
    destruct (loop_visited cfg browser terms started)
      as (done & rest & outs & st & Ht & Hloop & Hl & Hs & Hp & Hc & Ha).
    exists done, rest, outs, st; subst o; rewrite E.
    unfold outcomes_recorded; rewrite finish_final, finish_ended.
    cbn [call processed_count skipped_items].
    fold terms; rewrite Hs, Hp; simpl.
    repeat (split; [solve [auto]|]).
    split; [|split; [|split]].
    + pose proof (count_processed_length (combine done outs)) as Hlen.
      rewrite length_combine in Hlen; lia.
    + intros H; injection H as H; auto.
    + intros c H Hne; injection H as H.
      destruct Ha as (t & rest' & -> & Hit); [congruence|].
      exists t, rest'; split; [reflexivity|congruence].
    + intros [H|H]; discriminate.
Qed.

Lemma outcomes_cover_visited_terms_witness :
  index_of (input_column WEBSITE_CONFIG) (columns (sheet ["A"; "B"; "A"])) = Some 0
  /\ NoDup (search_terms_of (sheet ["A"; "B"; "A"]) 0).
Proof.
  split; [reflexivity|].
  exact (proj1 (outcomes_cover_visited_terms WEBSITE_CONFIG (sheet ["A"; "B"; "A"]) 0
                  (Ok tt) (Ok tt) (Ok tt) (fun _ => no_results) eq_refl)).
Defined.

(** C1, as stated, fails: when the search page of the only term does not
    load, line 134 leaves the loop; the sheet has one unique term and the
    run records no outcome. *)
Lemma outcomes_missing_after_break :
  let o := run_scraper_with_config WEBSITE_CONFIG (Ok (sheet ["A"])) (Ok tt)
             (Ok tt) (Ok tt) (fun _ => no_search_bar) in
  ended o = Ran Break
  /\ outcomes_recorded (final o) = 0
  /\ List.length (search_terms_of (sheet ["A"]) 0) = 1
  /\ outcomes_recorded (final o) <> List.length (search_terms_of (sheet ["A"]) 0).
Proof. vm_compute; repeat split; discriminate. Qed.

(** *** C2 *)

(** C2, as the code has it: cleaning a cleaned term changes nothing exactly
    when the cleaned term does not itself end in spaces followed by
    "district" (the two suffixes are removed once, not repeatedly); and the
    result is empty exactly when the term has only spaces (no rule removes
    the first word of a term, so no fallback exists or is needed). *)
Theorem clean_search_term_again (x : string) :
  (clean_search_term (clean_search_term x) = clean_search_term x
   <-> search district_re (clean_search_term x) = None)
  /\ (clean_search_term x = ""
      <-> forall c, In c (list_ascii_of_string x) -> is_space c = true).
Proof.
  split; split.
  - intros H; destruct (search district_re (clean_search_term x)) eqn:E;
      [|reflexivity].
    exfalso.
    assert (Hlt : String.length (clean_search_term (clean_search_term x))
                  < String.length (clean_search_term x)).
    { apply clean_shorter_of_district; [apply clean_stripped|congruence]. }
    rewrite H in Hlt; lia.
  - apply clean_fixed_of_no_district; [apply clean_stripped|apply clean_collapsed].
  - intros H; apply strip_empty_iff.
    destruct (strip x) as [|c r] eqn:E; [reflexivity|exfalso].
    assert (Hne : strip x <> "") by (rewrite E; discriminate).
    destruct (strip_nonempty_headed x Hne) as (c' & r' & E' & Hc).
    rewrite <- clean_of_strip, E' in H.
    destruct (clean_headed c' r' Hc) as (r'' & Hr); congruence.
  - intros H; apply strip_empty_iff in H.
    rewrite <- clean_of_strip, H; reflexivity.
Qed.

Lemma clean_search_term_again_witness :
  clean_search_term (clean_search_term "Some Unified School District")
  = clean_search_term "Some Unified School District".
Proof.
  apply (proj1 (clean_search_term_again "Some Unified School District")).
  reflexivity.
Defined.

(** Scenario A of the specification. *)
Lemma clean_some_unified :
  clean_search_term "Some Unified School District" = "Some Unified".
Proof. reflexivity. Qed.

(** C2, as stated, fails twice: "A District District" is cleaned to
    "A District" and then to "A"; a term of one space is not empty and is
    cleaned to the empty string. *)
Lemma clean_search_term_not_idempotent :
  clean_search_term "A District District" = "A District"
  /\ clean_search_term (clean_search_term "A District District") = "A"
  /\ clean_search_term (clean_search_term "A District District")
     <> clean_search_term "A District District"
  /\ " " <> "" /\ clean_search_term " " = "".
Proof. vm_compute; repeat split; discriminate. Qed.

(** *** C3 *)

(** C3 at the failing input: the first link is not displayed and the second
    is; the loop of [school-admin-scraper.py], which does not ask
    [is_displayed], clicks the first, the loop of [contactScraper.py] clicks
    the second. *)
Theorem click_matching_ignores_is_displayed :
  is_displayed (link "Alameda Unified" false) = Ok false
  /\ Scraper.click_matching "alameda" alameda_links_first_hidden 0 = Ok (Some 0)
  /\ ContactScraper.click_displayed_match "alameda" alameda_links_first_hidden 0
     = Ok (Some 1).
Proof. repeat split; reflexivity. Qed.

(** *** C4 *)

(** C4: when the text of a block can be read, [extract_contact_info]
    returns; the name is the first line that is not blank, stripped, or the
    sentinel when every line is blank; the phone is the sentinel when the
    pattern matches nowhere in the text, and a piece of the text that matches
    the pattern otherwise; the email is the sentinel when the search for the
    mailto link raises. *)
Theorem extract_contact_info_sentinels (td : element) (t : string) :
  text td = Ok t ->
  exists name phone email,
    extract_contact_info td = Ok (name, phone, email)
    /\ ((exists before line after,
           split newline (strip t) = before ++ line :: after
           /\ (forall b, In b before -> strip b = "")
           /\ strip line <> ""
           /\ name = strip line)
        \/ ((forall l, In l (split newline (strip t)) -> strip l = "")
            /\ name = NA))
    /\ ((forall pre s rest, strip t = pre +++ s -> ~ matches phone_re s rest)
        -> phone = NA)
    /\ (phone = NA
        \/ exists pre rest,
             strip t = pre +++ phone +++ rest
             /\ matches phone_re (phone +++ rest) rest)
    /\ (forall e, find_mailto td = Raise e -> email = NA).
Proof.
  intros Ht; unfold extract_contact_info; rewrite Ht.
  eexists _, _, _; split; [reflexivity|].
  split; [|split; [|split]].
  - unfold nonempty_lines.
    destruct (first_nonempty_line (split newline (strip t)))
      as [(before & line & after & E & Hb & Hl & more & Hm)|[Hall Hm]].
    + left; exists before, line, after; rewrite Hm; auto.
    + right; rewrite Hm; auto.
  - intros H; apply search_none_iff in H; rewrite H; reflexivity.
  - destruct (search phone_re (strip t)) as [m|] eqn:E; [right|left; reflexivity].
    apply search_some in E; exact E.
  - intros e He; rewrite He; reflexivity.
Qed.

Lemma extract_contact_info_sentinels_witness :
  text jane_block = Ok ("Jane Roe" +++ String newline "")
  /\ exists name phone email,
       extract_contact_info jane_block = Ok (name, phone, email).
Proof.
  split; [reflexivity|].
  destruct (extract_contact_info_sentinels jane_block _ eq_refl)
    as (name & phone & email & E & _).
  exists name, phone, email; exact E.
Defined.

(** Scenario C of the specification: an email and no phone. *)
Lemma extract_email_without_phone :
  extract_contact_info (block "John Doe" (Some "mailto:jd@example.org"))
  = Ok ("John Doe", "N/A", "jd@example.org").
Proof. reflexivity. Qed.

(** *** C5 *)

(** C5, as the code has it: when a term is reached, its search does not land
    on a detail page and the wait for the result links times out, the visit
    adds the line "<term> (No search results)" to [skipped_items] and
    nothing else; the line is in the skip report of the run (the run is one
    whose [driver.quit()] returns, so that the report is written); and the
    driver call that follows the visit is [driver.get] of the entry page, at
    the start of the next term. *)
Theorem no_search_results_skipped cfg df i browser pre t post st :
  index_of (input_column cfg) (columns df) = Some i ->
  search_terms_of df i = pre ++ t :: post ->
  loop cfg browser started pre = (st, Continue) ->
  get (browser t) (url cfg) = Ok tt ->
  wait_search_bar (browser t) (search_bar_id cfg) = Ok tt ->
  send_keys (browser t) (clean_search_term t) = Ok tt ->
  landed_on_detail_page cfg (clean_search_term t) (browser t) = Ok false ->
  wait_results (browser t) (search_results_link_selector cfg)
  = Raise TimeoutException ->
  let o := run_scraper_with_config cfg (Ok df) (Ok tt) (Ok tt) (Ok tt) browser in
  iteration cfg st t (browser t)
  = (skip (call st (DGet (url cfg))) t "No search results", Continue)
  /\ In (skipped_line t "No search results") (skipped_items (final o))
  /\ (exists before after,
        skipped_file o
        = Some (before +++ (skipped_line t "No search results"
                            +++ String newline "") +++ after))
  /\ (forall t' post', post = t' :: post' ->
        exists later,
          driver_calls (final o)
          = driver_calls st ++ [DGet (url cfg); DGet (url cfg)] ++ later).
Proof.
  intros Hi Hterms Hpre Hget Hbar Hkeys Hland Hwait o.
  assert (Hit : iteration cfg st t (browser t)
                = (skip (call st (DGet (url cfg))) t "No search results", Continue)).
  { unfold iteration, open_result; rewrite Hget, Hbar, Hkeys, Hland, Hwait.
    reflexivity. }
  split; [exact Hit|].
  assert (Hne : search_terms_of df i <> []).
  { rewrite Hterms; destruct pre; discriminate. }
  subst o; rewrite (run_ran cfg df i (Ok tt) browser Hi Hne), Hterms.
  rewrite loop_app, Hpre; cbn [fst snd]; rewrite loop_cons, Hit; cbn [fst snd].
  set (st1 := skip (call st (DGet (url cfg))) t "No search results").
  destruct (loop_outcomes cfg browser post st1)
    as (done & rest & outs & new & _ & _ & Hs & _).
  destruct (loop_calls cfg browser post st1) as (more & Hc & Hfirst).
  cbn [finish final skipped_file to_excel_call call skipped_items driver_calls].
  rewrite Hs, Hc.
  change (skipped_items st1)
    with (skipped_items st ++ [skipped_line t "No search results"]).
  split; [|split].
  - apply in_or_app; left; apply in_or_app; right; left; reflexivity.
  - exists (report_text (skipped_items st)),
           (report_text (skipped_lines (combine done outs))).
    rewrite <- app_assoc.
    destruct (skipped_items st ++
              [skipped_line t "No search results"] ++
              skipped_lines (combine done outs)) eqn:E.
    + destruct (skipped_items st); discriminate.
    + rewrite <- E, !report_text_app; simpl report_text at 2.
      rewrite append_nil_r; reflexivity.
  - intros t' post' ->.
    destruct Hfirst as (later & ->); [discriminate|].
    exists (later ++ [DQuit]).
    change (driver_calls st1) with (driver_calls st ++ [DGet (url cfg)]).
    rewrite <- !app_assoc; reflexivity.
Qed.

Lemma no_search_results_skipped_witness :
  In (skipped_line "A" "No search results")
     (skipped_items
        (final (run_scraper_with_config WEBSITE_CONFIG (Ok (sheet ["A"; "B"]))
                  (Ok tt) (Ok tt) (Ok tt) (fun _ => no_results)))).
Proof.
  exact (proj1 (proj2
    (no_search_results_skipped WEBSITE_CONFIG (sheet ["A"; "B"]) 0
       (fun _ => no_results) [] "A" ["B"] started
       eq_refl eq_refl eq_refl eq_refl eq_refl eq_refl eq_refl eq_refl))).
Defined.

(** C5, as stated, fails on the text of the reason: the program writes
    "No search results", with a capital letter, and the line with the
    reason "no search results" is not in the skip list. *)
Lemma no_search_results_reason_text :
  let o := run_scraper_with_config WEBSITE_CONFIG (Ok (sheet ["A"])) (Ok tt)
             (Ok tt) (Ok tt) (fun _ => no_results) in
  skipped_items (final o) = ["A (No search results)"]
  /\ ~ In (skipped_line "A" "no search results") (skipped_items (final o)).
Proof.
  vm_compute; split; [reflexivity|].
  intros [H|[]]; discriminate.
Qed.

(** *** C6 *)

(** C6 fails on the code when [driver.quit()] raises.  The sheet has the
    terms "A", "Alameda" and "B": "A" has no search results and is skipped,
    "Alameda" gives the record of Jane Roe, and the session is lost at "B",
    where every call on the driver raises, [driver.quit()] included.  The
    exception of the visit of "B" reaches line 212 and ends the loop with
    the record and the skipped term collected; [driver.quit()], the first
    statement of the [finally] block and outside any [try], is called and
    raises, so that neither [to_excel] is called nor the skip report
    written, and the exception leaves the function.  The same run with a
    [driver.quit()] that returns hands the merged frame, with the record in
    it, to [to_excel]. *)
Theorem abort_loses_records_when_quit_raises :
  let browser := fun t =>
    if String.eqb t "B" then session_lost
    else if String.eqb t "Alameda" then found_jane
    else no_results in
  let o := run_scraper_with_config WEBSITE_CONFIG
             (Ok (sheet ["A"; "Alameda"; "B"]))
             (Ok tt) (Ok tt) (Raise OtherException) browser in
  let o' := run_scraper_with_config WEBSITE_CONFIG
              (Ok (sheet ["A"; "Alameda"; "B"]))
              (Ok tt) (Ok tt) (Ok tt) browser in
  ended o = Ran (Fatal OtherException)
  /\ scraped_records (final o)
     = [{| r_term := "Alameda"; r_name := "Jane Roe";
           r_job_title := "Superintendent"; r_email := "N/A";
           r_phone := "N/A" |}]
  /\ skipped_items (final o) = ["A (No search results)"]
  /\ (exists calls, driver_calls (final o) = calls ++ [DQuit])
  /\ to_excel_call o = None
  /\ skipped_file o = None
  /\ escaped o = Some OtherException
  /\ final o' = final o
  /\ to_excel_call o'
     = Some (merge (sheet ["A"; "Alameda"; "B"]) 0 (scraped_records (final o)))
  /\ skipped_file o' = Some (report_text (skipped_items (final o)))
  /\ escaped o' = None.
Proof.
  vm_compute.
  repeat (split; [reflexivity|]).
  split; [eexists [_; _; _; _]; reflexivity|].
  repeat split.
Qed.

(** *** C7 *)

(** C7: the frame handed to [to_excel] is the left join of the sheet with
    the scraped records on the key column: it has at least as many rows as
    the sheet, every row of the sheet is in it, joined with each record of
    its key, and with blank scraped columns exactly when no record has its
    key. *)
Theorem merge_is_left_join cfg rd fx mx q browser out :
  to_excel_call (run_scraper_with_config cfg rd fx mx q browser) = Some out ->
  exists df i,
    rd = Ok df
    /\ index_of (input_column cfg) (columns df) = Some i
    /\ out = merge df i
               (scraped_records (final (run_scraper_with_config cfg rd fx mx q browser)))
    /\ List.length (rows df) <= List.length out
    /\ (forall row, In row (rows df) -> exists m, In (row, m) out)
    /\ (forall row r,
          In (row, Some r) out
          <-> In row (rows df)
              /\ In r (scraped_records
                         (final (run_scraper_with_config cfg rd fx mx q browser)))
              /\ key_of i row = Some (r_term r))
    /\ (forall row,
          In (row, None) out
          <-> In row (rows df)
              /\ forall r,
                   In r (scraped_records
                           (final (run_scraper_with_config cfg rd fx mx q browser))) ->
                   key_of i row <> Some (r_term r)).
Proof.
  intros Hout.
  destruct (run_to_excel cfg rd fx mx q browser out Hout) as (df & i & Ed & Hi & ->).
  exists df, i; split; [exact Ed|split; [exact Hi|split; [reflexivity|]]].
  split; [apply merge_length|].
  split; [intros row; apply merge_keeps_row|].
  split; [intros row r; apply merge_some|intros row; apply merge_none].
Qed.

Lemma merge_is_left_join_witness :
  exists out,
    to_excel_call (run_scraper_with_config WEBSITE_CONFIG
                     (Ok (sheet ["Alameda"; "B"])) (Ok tt) (Ok tt) (Ok tt)
                     (fun t => if String.eqb t "B" then no_results else found_jane))
    = Some out
    /\ List.length (rows (sheet ["Alameda"; "B"])) <= List.length out.
Proof.
  eexists; split; [reflexivity|].
  destruct (merge_is_left_join WEBSITE_CONFIG (Ok (sheet ["Alameda"; "B"])) (Ok tt)
              (Ok tt) (Ok tt)
              (fun t => if String.eqb t "B" then no_results else found_jane)
              _ eq_refl)
    as (df & i & Ed & _ & _ & Hlen & _).
  injection Ed as <-; exact Hlen.
Defined.

(** *** C8 *)

(** C8, as the code has it: in a run whose [driver.quit()] returns, the skip
    report is written exactly when a term was skipped; its text is, for each skipped term in order, the line
    "<original term> (<reason>)" followed by a newline; and when no search
    term contains a newline, the lines of the file are the lines of the
    skipped terms, one per skipped term. *)
Theorem skip_report_entries cfg df i fx mx browser :
  index_of (input_column cfg) (columns df) = Some i ->
  let o := run_scraper_with_config cfg (Ok df) fx mx (Ok tt) browser in
  (skipped_file o = None <-> skipped_items (final o) = [])
  /\ (forall text, skipped_file o = Some text ->
        text = report_text (skipped_items (final o)))
  /\ Forall (fun s => exists t reason,
               In t (search_terms_of df i) /\ In reason reasons
               /\ s = skipped_line t reason)
            (skipped_items (final o))
  /\ ((forall t, In t (search_terms_of df i) -> has_newline t = false) ->
      forall text, skipped_file o = Some text ->
        file_lines text = skipped_items (final o)
        /\ List.length (file_lines text) = List.length (skipped_items (final o))).
Proof.
  intros Hi o.
  assert (Hfmt : Forall (fun s => exists t reason,
                           In t (search_terms_of df i) /\ In reason reasons
                           /\ s = skipped_line t reason)
                        (skipped_items (final o))).
  { destruct (run_cases cfg (Ok df) fx mx (Ok tt) browser)
      as [E|[E|(df' & i' & Ed & Hi' & E)]];
      subst o; rewrite E; [constructor|constructor|].
    injection Ed as <-; assert (i' = i) as -> by congruence.
    rewrite finish_final; cbn [call skipped_items].
    apply loop_skipped_format; [apply incl_refl|constructor]. }
  assert (Hfile : skipped_file o
                  = match skipped_items (final o) with
                    | [] => None
                    | sk => Some (report_text sk)
                    end).
  { destruct (run_cases cfg (Ok df) fx mx (Ok tt) browser)
      as [E|[E|(df' & i' & Ed & Hi' & E)]];
      subst o; rewrite E; reflexivity. }
  split; [|split; [|split; [exact Hfmt|]]].
  - rewrite Hfile; destruct (skipped_items (final o)); split; congruence.
  - intros text; rewrite Hfile; destruct (skipped_items (final o));
      [discriminate|congruence].
  - intros Hnl text Htext.
    assert (Et : text = report_text (skipped_items (final o))).
    { revert Htext; rewrite Hfile; destruct (skipped_items (final o));
        [discriminate|congruence]. }
    assert (El : file_lines text = skipped_items (final o)).
    { rewrite Et; apply file_lines_report.
      eapply Forall_impl; [|exact Hfmt].
      intros s (t & reason & Ht & Hr & ->).
      apply skipped_line_no_newline; auto. }
    split; [exact El|rewrite El; reflexivity].
Qed.

Lemma skip_report_entries_witness :
  index_of (input_column WEBSITE_CONFIG) (columns (sheet ["A"; "B"])) = Some 0
  /\ forall text,
       skipped_file (run_scraper_with_config WEBSITE_CONFIG (Ok (sheet ["A"; "B"]))
                       (Ok tt) (Ok tt) (Ok tt) (fun _ => no_results))
       = Some text ->
       List.length (file_lines text) = 2.
Proof.
  split; [reflexivity|].
  intros text Htext.
  destruct (skip_report_entries WEBSITE_CONFIG (sheet ["A"; "B"]) 0 (Ok tt) (Ok tt)
              (fun _ => no_results) eq_refl) as (_ & _ & _ & H).
  assert (Hnl : forall t, In t (search_terms_of (sheet ["A"; "B"]) 0) ->
                          has_newline t = false).
  { intros t [<-|[<-|[]]]; reflexivity. }
  destruct (H Hnl text Htext) as [_ Hlen]; exact Hlen.
Defined.

(** C8, as stated, fails when a skipped term holds a newline (a cell with a
    line break): one term is skipped and the report has two lines, the
    first of which is not of the form "<term> (<reason>)". *)
Lemma skip_report_line_break :
  let term := "A" +++ String newline "B" in
  let o := run_scraper_with_config WEBSITE_CONFIG (Ok (sheet [term])) (Ok tt)
             (Ok tt) (Ok tt) (fun _ => no_results) in
  List.length (skipped_items (final o)) = 1
  /\ exists text,
       skipped_file o = Some text
       /\ file_lines text = ["A"; "B (No search results)"]
       /\ List.length (file_lines text) <> List.length (skipped_items (final o)).
Proof.
  vm_compute; split; [reflexivity|].
  eexists; split; [reflexivity|]; split; [reflexivity|discriminate].
Qed.

(** *** C9 *)

(** C9: a run that has collected no record does not call [to_excel]. *)
Theorem no_records_no_write cfg rd fx mx q browser :
  scraped_records (final (run_scraper_with_config cfg rd fx mx q browser)) = [] ->
  to_excel_call (run_scraper_with_config cfg rd fx mx q browser) = None.
Proof.
  destruct (run_cases cfg rd fx mx q browser) as [E|[E|(df & i & Ed & Hi & E)]];
    rewrite E; [reflexivity|reflexivity|].
  rewrite finish_to_excel, finish_final; cbn [call scraped_records].
  intros ->; destruct q; reflexivity.
Qed.

Lemma no_records_no_write_witness :
  to_excel_call (run_scraper_with_config WEBSITE_CONFIG (Ok (sheet ["A"; "B"]))
                   (Ok tt) (Ok tt) (Ok tt) (fun _ => no_results)) = None.
Proof.
  apply (no_records_no_write WEBSITE_CONFIG (Ok (sheet ["A"; "B"])) (Ok tt)
           (Ok tt) (Ok tt) (fun _ => no_results)).
  reflexivity.
Defined.

(** *** C10 *)

(** C10: every record a run collects, and every record in the frame it hands
    to [to_excel], has a name other than "N/A"; the phone and the email of
    such a record can both be "N/A"; and a block whose phone is found and
    whose name reads "N/A" gives no record, so that the condition is
    stronger than one of the three fields being found. *)
Theorem records_have_names cfg rd fx mx q browser :
  let o := run_scraper_with_config cfg rd fx mx q browser in
  (forall r, In r (scraped_records (final o)) -> r_name r <> NA)
  /\ (forall out row r,
        to_excel_call o = Some out -> In (row, Some r) out -> r_name r <> NA)
  /\ (exists r,
        In r (scraped_records
                (final (run_scraper_with_config WEBSITE_CONFIG
                          (Ok (sheet ["Alameda"])) (Ok tt) (Ok tt) (Ok tt)
                          (fun _ => found_jane))))
        /\ r_name r <> NA /\ r_phone r = NA /\ r_email r = NA)
  /\ (exists td name phone email,
        extract_contact_info td = Ok (name, phone, email)
        /\ name = NA /\ phone <> NA
        /\ extract_roles "Alameda" (results [] (superintendent_only td))
             (contact_data_xpaths WEBSITE_CONFIG) [] false = ([], false)).
Proof.
  intros o.
  assert (Hnames : forall r, In r (scraped_records (final o)) -> r_name r <> NA).
  { destruct (run_cases cfg rd fx mx q browser)
      as [E|[E|(df & i & Ed & Hi & E)]];
      subst o; rewrite E; [intros r []|intros r []|].
    rewrite finish_final; cbn [call scraped_records].
    destruct (loop_outcomes cfg browser (search_terms_of df i) started)
      as (done & rest & outs & new & _ & _ & _ & _ & Hrec & Hnew & _).
    rewrite Hrec; simpl; intros r Hin.
    rewrite Forall_forall in Hnew; apply (Hnew r Hin). }
  split; [exact Hnames|split; [|split]].
  - intros out row r Hout Hin.
    destruct (run_to_excel cfg rd fx mx q browser out Hout)
      as (df & i & _ & _ & ->).
    apply Hnames, (proj1 (merge_some _ _ _ row r) Hin).
  - eexists; split; [left; reflexivity|].
    vm_compute; repeat split; discriminate.
  - exists (block ("N/A" +++ String newline "(916) 555-1234") None).
    eexists _, _, _; split; [reflexivity|].
    vm_compute; repeat split; discriminate.
Qed.

Lemma records_have_names_witness :
  exists r,
    In r (scraped_records
            (final (run_scraper_with_config WEBSITE_CONFIG
                      (Ok (sheet ["Alameda"])) (Ok tt) (Ok tt) (Ok tt)
                      (fun _ => found_jane))))
    /\ r_name r <> NA.
Proof.
  eexists; split; [left; reflexivity|].
  apply (proj1 (records_have_names WEBSITE_CONFIG (Ok (sheet ["Alameda"])) (Ok tt)
                  (Ok tt) (Ok tt) (fun _ => found_jane))).
  left; reflexivity.
Defined.

End Claims.

(** * Further properties of the code *)

(** ** [clean_search_term] and [extract_contact_info] *)

Module TextFacts.
Import PyStr Re Scraper Spec Measures Samples.
Import PyStrFacts ReFacts CleanFacts LoopFacts RunFacts.

Lemma strip_fixed_lstrip (y : string) : strip y = y -> lstrip y = y.
Proof.
  unfold strip; intros H; rewrite <- H at 1.
  rewrite (lstrip_rstrip _ (lstrip_idem y)); exact H.
Qed.

Lemma strip_fixed_rstrip (y : string) : strip y = y -> rstrip y = y.
Proof.
  unfold strip; intros H; rewrite <- H at 1; rewrite rstrip_idem; exact H.
Qed.

Lemma rstrip_last_space p c :
  is_space c = true -> rstrip (p +++ String c "") = rstrip p.
Proof.
  intros Hc; induction p as [|a p IH].
  - simpl; rewrite Hc; reflexivity.
  - cbn [String.append]; rewrite !rstrip_cons, IH; reflexivity.
Qed.

Lemma rstrip_fixed_last p c :
  rstrip (p +++ String c "") = p +++ String c "" -> is_space c = false.
Proof.
  intros H; destruct (is_space c) eqn:Hc; [exfalso|reflexivity].
  rewrite (rstrip_last_space p c Hc) in H.
  pose proof (rstrip_length p) as Hl; rewrite H, append_length in Hl.
  simpl in Hl; lia.
Qed.

Lemma collapse_fixed_suffix p s :
  sub spaces_re " " (p +++ s) = p +++ s -> sub spaces_re " " s = s.
Proof.
  induction p as [|a p IH]; [auto|].
  cbn [String.append]; intros H.
  apply IH, (proj1 (collapse_fixed_inv _ _ H)).
Qed.

(** X1: The result of [clean_search_term] has no space at its start or at its
    end, each of its spaces is one blank followed by a character that is no
    space, and it is not longer than the term. *)
Theorem clean_search_term_normal (x : string) :
  (forall c r, clean_search_term x = String c r -> is_space c = false)
  /\ (forall p c, clean_search_term x = p +++ String c "" -> is_space c = false)
  /\ (forall p c d r,
        clean_search_term x = p +++ String c (String d r) ->
        is_space c = true -> c = " "%char /\ is_space d = false)
  /\ String.length (clean_search_term x) <= String.length x.
Proof.
  pose proof (clean_stripped x) as Hs.
  pose proof (clean_collapsed x) as Hc.
  split; [|split; [|split]].
  - intros c r E.
    apply (lstrip_head (clean_search_term x) c r).
    rewrite (strip_fixed_lstrip _ Hs); exact E.
  - intros p c E.
    apply (rstrip_fixed_last p c); rewrite <- E.
    apply strip_fixed_rstrip, Hs.
  - intros p c d r E Hsp; rewrite E in Hc.
    apply collapse_fixed_suffix in Hc.
    destruct (collapse_fixed_inv _ _ Hc) as (_ & Hl).
    rewrite (collapse_space _ _ Hsp) in Hc; injection Hc as Hc _.
    split; [auto|].
    apply (lstrip_head _ _ _ (Hl Hsp)).
  - apply clean_length.
Qed.

Lemma clean_search_term_normal_witness :
  clean_search_term "  Los   Angeles  unified   SCHOOL   DISTRICT  "
  = "Los Angeles unified"
  /\ is_space "d" = false.
Proof.
  split; [reflexivity|].
  exact (proj1 (proj2
    (clean_search_term_normal "  Los   Angeles  unified   SCHOOL   DISTRICT  "))
    "Los Angeles unifie" "d"%char eq_refl).
Defined.

(** X2: A term that, stripped, does not end in spaces and "district" only has
    its spaces normalised; a term that does is cleaned to something shorter
    than the stripped term. *)
Theorem clean_search_term_suffix (x : string) :
  (search district_re (strip x) = None ->
   clean_search_term x = strip (sub spaces_re " " (strip x)))
  /\ (search district_re (strip x) <> None ->
      String.length (clean_search_term x) < String.length (strip x)).
Proof.
  split.
  - intros H; unfold clean_search_term.
    rewrite (sub_no_match _ _ _ (school_district_then_district _ H)).
    rewrite strip_idem, (sub_no_match _ _ _ H), strip_idem; reflexivity.
  - intros H; rewrite <- clean_of_strip.
    apply clean_shorter_of_district; [apply strip_idem|exact H].
Qed.

Lemma clean_search_term_suffix_witness :
  clean_search_term " Los  Angeles Unified "
  = strip (sub spaces_re " " (strip " Los  Angeles Unified "))
  /\ String.length (clean_search_term "Manteca Unified District")
     < String.length (strip "Manteca Unified District").
Proof.
  split.
  - apply (proj1 (clean_search_term_suffix " Los  Angeles Unified ")); reflexivity.
  - apply (proj2 (clean_search_term_suffix "Manteca Unified District"));
      discriminate.
Defined.

(** *** The phone *)

Lemma count_digits_app a b :
  count_digits (a +++ b) = count_digits a + count_digits b.
Proof. induction a as [|c a IH]; simpl; [reflexivity|rewrite IH; lia]. Qed.

Lemma append_cancel_r a : forall b r, a +++ r = b +++ r -> a = b.
Proof.
  induction a as [|c a IH]; intros [|d b] r H; simpl in H.
  - reflexivity.
  - exfalso; apply (f_equal String.length) in H; simpl in H.
    rewrite append_length in H; lia.
  - exfalso; apply (f_equal String.length) in H; simpl in H.
    rewrite append_length in H; lia.
  - injection H as -> H; f_equal; apply (IH _ _ H).
Qed.

Lemma sep_not_digit c :
  (Ascii.eqb c "-"%char || Ascii.eqb c "."%char || is_space c) = true ->
  is_digit c = false.
Proof.
  destruct c as [[] [] [] [] [] [] [] []]; vm_compute; congruence.
Qed.

Lemma consumes_class p dg :
  (forall c, p c = true -> (if is_digit c then 1 else 0) = dg) ->
  consumes (Class p) dg 1 1.
Proof.
  intros Hp s rest Hm; inversion Hm; subst.
  exists (String c ""); simpl; rewrite (Hp c) by assumption.
  repeat split; lia.
Qed.

Lemma consumes_opt_class p :
  (forall c, p c = true -> is_digit c = false) ->
  consumes (Opt (Class p)) 0 0 1.
Proof.
  intros Hp s rest Hm; inversion Hm as [| |a s0 s1 Ha|a s0| | | |]; subst.
  - inversion Ha; subst.
    exists (String c ""); simpl; rewrite (Hp c) by assumption.
    repeat split; lia.
  - exists ""; repeat split; simpl; lia.
Qed.

Lemma consumes_cat a b da la ha db lb hb :
  consumes a da la ha -> consumes b db lb hb ->
  consumes (Cat a b) (da + db) (la + lb) (ha + hb).
Proof.
  intros Ha Hb s rest Hm; inversion Hm; subst.
  destruct (Ha _ _ H1) as (m1 & -> & Hd1 & Hl1).
  destruct (Hb _ _ H4) as (m2 & -> & Hd2 & Hl2).
  exists (m1 +++ m2); rewrite append_assoc, count_digits_app, append_length.
  repeat split; lia.
Qed.

Lemma consumes_digit : consumes digit 1 1 1.
Proof. apply consumes_class; intros c ->; reflexivity. Qed.

Lemma consumes_phone : consumes phone_re 10 10 14.
Proof.
  assert (Hparen : forall x, consumes (Opt (chr x)) 0 0 1 \/ is_digit x = true).
  { intros x; destruct (is_digit x) eqn:E; [auto|left].
    apply consumes_opt_class; intros c Hc.
    apply Ascii.eqb_eq in Hc; subst; exact E. }
  assert (Hsep : consumes (Opt sep) 0 0 1)
    by (apply consumes_opt_class, sep_not_digit).
  assert (H3 : consumes digits3 3 3 3)
    by (repeat apply (consumes_cat _ _ 1 1 1); apply consumes_digit).
  assert (H4 : consumes digits4 4 4 4)
    by (repeat apply (consumes_cat _ _ 1 1 1); apply consumes_digit).
  destruct (Hparen "("%char) as [Ho|Ho]; [|discriminate Ho].
  destruct (Hparen ")"%char) as [Hc|Hc]; [|discriminate Hc].
  exact (consumes_cat _ _ _ _ _ _ _ _ Ho
          (consumes_cat _ _ _ _ _ _ _ _ H3
            (consumes_cat _ _ _ _ _ _ _ _ Hc
              (consumes_cat _ _ _ _ _ _ _ _ Hsep
                (consumes_cat _ _ _ _ _ _ _ _ H3
                  (consumes_cat _ _ _ _ _ _ _ _ Hsep H4)))))).
Qed.

Lemma search_phone_digits s m :
  search phone_re s = Some m ->
  count_digits m = 10 /\ 10 <= String.length m <= 14
  /\ 10 <= count_digits s.
Proof.
  intros H; destruct (search_some _ _ _ H) as (pre & rest & -> & Hm).
  destruct (consumes_phone _ _ Hm) as (m' & E & Hd & Hl).
  apply append_cancel_r in E; subst m'.
  rewrite !count_digits_app; repeat split; lia.
Qed.

Lemma count_digits_lstrip s : count_digits (lstrip s) <= count_digits s.
Proof.
  induction s as [|c s IH]; simpl; [lia|].
  destruct (is_space c); simpl; lia.
Qed.

Lemma count_digits_rstrip s : count_digits (rstrip s) <= count_digits s.
Proof.
  induction s as [|c s IH]; [simpl; lia|].
  rewrite rstrip_cons.
  destruct (is_empty (rstrip s) && is_space c); simpl; lia.
Qed.

Lemma count_digits_strip s : count_digits (strip s) <= count_digits s.
Proof.
  unfold strip.
  pose proof (count_digits_rstrip (lstrip s)); pose proof (count_digits_lstrip s).
  lia.
Qed.

(** X3: The phone [extract_contact_info] returns is "N/A" or a text of ten to
    fourteen characters with exactly ten digits; a block whose text has
    fewer than ten digits has the phone "N/A". *)
Theorem phone_has_ten_digits td name phone email :
  extract_contact_info td = Ok (name, phone, email) ->
  (phone = NA
   \/ (count_digits phone = 10 /\ 10 <= String.length phone <= 14))
  /\ (forall t, text td = Ok t -> count_digits t < 10 -> phone = NA).
Proof.
  unfold extract_contact_info.
  destruct (text td) as [t|] eqn:Et; [|discriminate].
  intros H; injection H as _ Hp _.
  destruct (search phone_re (strip t)) as [m|] eqn:E.
  - destruct (search_phone_digits _ _ E) as (Hd & Hl & Hs); subst m.
    split; [right; auto|].
    intros t' Ht' Hlt; injection Ht' as <-.
    pose proof (count_digits_strip t); lia.
  - split; [left; auto|auto].
Qed.

Lemma phone_has_ten_digits_witness :
  count_digits "(916) 555-1234" = 10.
Proof.
  destruct (proj1 (phone_has_ten_digits
                     (block ("John Doe" +++ String newline "(916) 555-1234 ext. 5") None)
                     "John Doe" "(916) 555-1234" "N/A" eq_refl)) as [H|[H _]].
  - discriminate H.
  - exact H.
Defined.

(** *** The name *)

Lemma has_newline_false_iff s :
  has_newline s = false <-> ~ In newline (list_ascii_of_string s).
Proof.
  unfold has_newline; induction s as [|c s IH];
    cbn [list_ascii_of_string existsb In]; [tauto|].
  rewrite orb_false_iff, IH, Ascii.eqb_neq; split.
  - intros [Hc Hs] [E|Hin]; [apply Hc; auto|auto].
  - intros H; split; [intros E; apply H; auto|intros Hin; apply H; auto].
Qed.

Lemma lstrip_chars s c :
  In c (list_ascii_of_string (lstrip s)) -> In c (list_ascii_of_string s).
Proof.
  induction s as [|a s IH]; simpl; [auto|].
  destruct (is_space a); simpl; auto.
Qed.

Lemma rstrip_chars s c :
  In c (list_ascii_of_string (rstrip s)) -> In c (list_ascii_of_string s).
Proof.
  induction s as [|a s IH]; [auto|].
  rewrite rstrip_cons.
  destruct (is_empty (rstrip s) && is_space a); simpl; [intros []|].
  intros [E|Hin]; auto.
Qed.

Lemma strip_chars s c :
  In c (list_ascii_of_string (strip s)) -> In c (list_ascii_of_string s).
Proof. unfold strip; intros H; apply lstrip_chars, rstrip_chars, H. Qed.

Lemma has_newline_cons c l :
  Ascii.eqb c newline = false -> has_newline l = false ->
  has_newline (String c l) = false.
Proof.
  unfold has_newline; cbn [list_ascii_of_string existsb].
  intros E ->; rewrite Ascii.eqb_sym, E; reflexivity.
Qed.

Lemma split_no_newline s :
  Forall (fun l => has_newline l = false) (split newline s).
Proof.
  induction s as [|c s IH]; cbn [split]; [repeat constructor|].
  destruct (Ascii.eqb c newline) eqn:E; [constructor; [reflexivity|exact IH]|].
  destruct (split newline s) as [|l ls].
  - repeat constructor; apply has_newline_cons; [exact E|reflexivity].
  - inversion IH as [|? ? Hl Hls]; subst; constructor; [|exact Hls].
    apply has_newline_cons; assumption.
Qed.

(** X4: The name [extract_contact_info] returns is never empty, has no space at
    either end and holds no newline: it is "N/A" or one stripped line of the
    block. *)
Theorem name_is_one_line td name phone email :
  extract_contact_info td = Ok (name, phone, email) ->
  name <> "" /\ strip name = name /\ has_newline name = false.
Proof.
  unfold extract_contact_info.
  destruct (text td) as [t|] eqn:Et; [|discriminate].
  intros H; injection H as Hn _ _; unfold nonempty_lines in Hn.
  destruct (first_nonempty_line (split newline (strip t)))
    as [(before & line & after & E & _ & Hne & more & Hm)|[_ Hm]];
    rewrite Hm in Hn; subst name.
  - split; [exact Hne|split; [apply strip_idem|]].
    apply has_newline_false_iff; intros Hin; apply strip_chars in Hin.
    pose proof (split_no_newline (strip t)) as Hall.
    rewrite E, Forall_forall in Hall.
    assert (Hl : has_newline line = false)
      by (apply Hall, in_or_app; right; left; reflexivity).
    apply has_newline_false_iff in Hl; auto.
  - split; [discriminate|split; reflexivity].
Qed.

Lemma name_is_one_line_witness : strip "Jane Roe" = "Jane Roe".
Proof.
  exact (proj1 (proj2 (name_is_one_line
                         (block ("  Jane Roe " +++ String newline " 555") None)
                         "Jane Roe" "N/A" "N/A" eq_refl))).
Defined.

(** *** The email *)

Lemma replace_absent old new s :
  contains old s = false -> replace old new s = s.
Proof.
  unfold replace; induction s as [|c s IH]; [reflexivity|].
  cbn [contains replace_go]; intros H.
  apply orb_false_iff in H; destruct H as [Hp Hc].
  rewrite Hp, (IH Hc); reflexivity.
Qed.

Lemma replace_mailto_prefix address :
  replace "mailto:" "" ("mailto:" +++ address) = replace "mailto:" "" address.
Proof. unfold replace; cbn; destruct address; reflexivity. Qed.

(** X5: When the block has a link whose [href] is "mailto:" followed by an
    address in which "mailto:" does not occur again, the email returned is
    that address. *)
Theorem email_is_the_address td t link address :
  text td = Ok t ->
  find_mailto td = Ok link ->
  href link = Ok (Some ("mailto:" +++ address)) ->
  contains "mailto:" address = false ->
  exists name phone,
    extract_contact_info td = Ok (name, phone, address).
Proof.
  intros Ht Hl Hh Ha; unfold extract_contact_info; rewrite Ht, Hl, Hh.
  rewrite replace_mailto_prefix, (replace_absent _ _ _ Ha).
  eexists _, _; reflexivity.
Qed.

Lemma email_is_the_address_witness :
  exists name phone,
    extract_contact_info (block "John Doe" (Some "mailto:jd@example.org"))
    = Ok (name, phone, "jd@example.org").
Proof.
  exact (email_is_the_address (block "John Doe" (Some "mailto:jd@example.org"))
           "John Doe" {| href := Ok (Some "mailto:jd@example.org") |}
           "jd@example.org" eq_refl eq_refl eq_refl eq_refl).
Defined.

End TextFacts.

(** ** The link matcher, the roles and the run of [school-admin-scraper.py] *)

Module RunMore.
Import PyStr Re Scraper Spec Measures Samples.
Import PyStrFacts ReFacts CleanFacts LoopFacts RunFacts.

(** X6: The loop over the result links answers "no link" exactly when the text
    of every link was read and none contains the term; it answers the index
    [n] exactly when the link at [n] contains the term and was clicked, and
    the text of every link before it was read and does not contain the
    term. *)
Theorem click_matching_first term : forall links i,
  (Scraper.click_matching term links i = Ok None
   <-> Forall (fun l => exists t,
                 text l = Ok t
                 /\ contains (lower_str term) (lower_str t) = false) links)
  /\ (forall n,
        Scraper.click_matching term links i = Ok (Some n)
        <-> exists k l t,
              n = i + k /\ nth_error links k = Some l
              /\ text l = Ok t
              /\ contains (lower_str term) (lower_str t) = true
              /\ click l = Ok tt
              /\ Forall (fun l' => exists t',
                           text l' = Ok t'
                           /\ contains (lower_str term) (lower_str t') = false)
                        (firstn k links)).
Proof.
  induction links as [|a links IH]; intros i; cbn [Scraper.click_matching].
  - split; [split; [constructor|reflexivity]|].
    intros n; split; [discriminate|].
    intros ([|k] & l & t & _ & Hn & _); discriminate.
  - destruct (IH (S i)) as [IHnone IHsome].
    destruct (text a) as [t|e] eqn:Et.
    + destruct (contains (lower_str term) (lower_str t)) eqn:Ec.
      * split.
        -- destruct (click a) as [[]|]; split; try discriminate;
             intros H; inversion H as [|? ? (t' & Ht' & Hc') _]; subst;
             congruence.
        -- intros n; split.
           ++ destruct (click a) as [[]|] eqn:Ek; [|discriminate].
              intros H; injection H as <-.
              exists 0, a, t; rewrite Nat.add_0_r.
              repeat (split; [solve [auto]|]); constructor.
           ++ intros ([|k] & l & t' & -> & Hn & Ht & Hc & Hk & Hbefore).
              ** injection Hn as <-; rewrite Hk, Nat.add_0_r; reflexivity.
              ** inversion Hbefore as [|? ? (t'' & Ht'' & Hc'') _]; subst.
                 congruence.
      * split.
        -- rewrite IHnone; split.
           ++ intros H; constructor; [eauto|exact H].
           ++ intros H; inversion H; assumption.
        -- intros n; rewrite IHsome; split.
           ++ intros (k & l & t' & -> & Hn & Ht & Hc & Hk & Hbefore).
              exists (S k), l, t'.
              split; [lia|]; repeat (split; [solve [auto]|]).
              cbn [firstn]; constructor; [eauto|exact Hbefore].
           ++ intros ([|k] & l & t' & -> & Hn & Ht & Hc & Hk & Hbefore).
              ** injection Hn as <-; congruence.
              ** exists k, l, t'.
                 split; [lia|]; repeat (split; [solve [auto]|]).
                 cbn [firstn] in Hbefore; inversion Hbefore; assumption.
    + split.
      * split; [discriminate|].
        intros H; inversion H as [|? ? (t' & Ht' & _) _]; congruence.
      * intros n; split; [discriminate|].
        intros ([|k] & l & t' & -> & Hn & Ht & Hc & Hk & Hbefore).
        -- injection Hn as <-; congruence.
        -- inversion Hbefore as [|? ? (t'' & Ht'' & _) _]; congruence.
Qed.

Lemma click_matching_first_witness :
  Scraper.click_matching "unified" [link "Alameda City" true;
                                    link "Alameda Unified" true] 0
  = Ok (Some 1).
Proof.
  apply (proj2 (click_matching_first "unified"
                  [link "Alameda City" true; link "Alameda Unified" true] 0) 1).
  exists 1, (link "Alameda Unified" true), "Alameda Unified".
  repeat (split; [reflexivity|]).
  repeat constructor; eexists; split; reflexivity.
Defined.

Lemma prefix_empty s : prefix "" s = true.
Proof. destruct s; reflexivity. Qed.

Lemma contains_empty s : contains "" s = true.
Proof. destruct s; reflexivity. Qed.

Lemma clean_blank t :
  (forall c, In c (list_ascii_of_string t) -> is_space c = true) ->
  clean_search_term t = "".
Proof.
  intros H; apply strip_empty_iff in H.
  rewrite <- clean_of_strip, H; reflexivity.
Qed.

(** X7: A term made of spaces only is cleaned to the empty string, which every
    text contains: the search is taken to have landed on the detail page as
    soon as a page title can be read, and otherwise the first result link
    is clicked whatever its text. *)
Theorem blank_term_matches_anything cfg t w :
  (forall c, In c (list_ascii_of_string t) -> is_space c = true) ->
  (forall el s,
     find_title w (detail_page_name_selector cfg) = Ok el -> text el = Ok s ->
     landed_on_detail_page cfg (clean_search_term t) w = Ok true)
  /\ (forall l ls s,
        wait_results w (search_results_link_selector cfg) = Ok (l :: ls) ->
        text l = Ok s -> click l = Ok tt ->
        open_result cfg (clean_search_term t) w = Ok OnDetailPage).
Proof.
  intros H; rewrite (clean_blank t H); split.
  - intros el s Hf Ht; unfold landed_on_detail_page; rewrite Hf, Ht.
    cbn [lower_str]; rewrite contains_empty; reflexivity.
  - intros l ls s Hw Ht Hc; unfold open_result; rewrite Hw.
    cbn [Scraper.click_matching lower_str]; rewrite Ht, contains_empty, Hc.
    reflexivity.
Qed.

Lemma blank_term_matches_anything_witness :
  open_result WEBSITE_CONFIG (clean_search_term "   ")
    (results [link "Zamora Elementary" true] (fun _ => Raise NoSuchElementException))
  = Ok OnDetailPage.
Proof.
  apply (proj2 (blank_term_matches_anything WEBSITE_CONFIG "   "
                  (results [link "Zamora Elementary" true]
                           (fun _ => Raise NoSuchElementException))
                  ltac:(intros c [<-|[<-|[<-|[]]]]; reflexivity))
               (link "Zamora Elementary" true) [] "Zamora Elementary");
    reflexivity.
Defined.

(** *** The roles *)

Lemma extract_roles_flat_map t w roles : forall scraped found,
  extract_roles t w roles scraped found
  = (scraped ++ flat_map (role_record t w) roles,
     found || negb (is_nil (flat_map (role_record t w) roles))).
Proof.
  induction roles as [|[job_title xpath] roles IH]; intros scraped found.
  - simpl; rewrite app_nil_r, orb_false_r; reflexivity.
  - cbn [extract_roles flat_map]; unfold role_record at 1 3; cbn [fst snd].
    destruct (find_field w xpath) as [td|]; [|apply IH].
    destruct (extract_contact_info td) as [[[name phone] email]|]; [|apply IH].
    destruct (String.eqb name NA); [apply IH|].
    rewrite IH, <- app_assoc; cbn [app is_nil negb].
    rewrite orb_true_r; reflexivity.
Qed.

(** X8: The loop over the roles treats each role on its own: the records it adds
    are those of the roles taken one by one, in the order of the
    configuration, whatever happens with the other roles; data counts as
    found exactly when one role gives a record. *)
Theorem roles_extracted_independently t w roles : forall scraped found,
  extract_roles t w roles scraped found
  = (scraped ++ flat_map (role_record t w) roles,
     found || negb (is_nil (flat_map (role_record t w) roles))).
Proof.
  induction roles as [|[job_title xpath] roles IH]; intros scraped found.
  - simpl; rewrite app_nil_r, orb_false_r; reflexivity.
  - cbn [extract_roles flat_map]; unfold role_record at 1 3; cbn [fst snd].
    destruct (find_field w xpath) as [td|]; [|apply IH].
    destruct (extract_contact_info td) as [[[name phone] email]|]; [|apply IH].
    destruct (String.eqb name NA); [apply IH|].
    rewrite IH, <- app_assoc; cbn [app is_nil negb].
    rewrite orb_true_r; reflexivity.
Qed.

Lemma role_record_length t w role : List.length (role_record t w role) <= 1.
Proof.
  unfold role_record.
  destruct (find_field w (snd role)) as [td|]; [|simpl; lia].
  destruct (extract_contact_info td) as [[[name phone] email]|]; [|simpl; lia].
  destruct (String.eqb name NA); simpl; lia.
Qed.

Lemma role_records_length t w roles :
  List.length (flat_map (role_record t w) roles) <= List.length roles.
Proof.
  induction roles as [|role roles IH]; simpl; [lia|].
  rewrite length_app; pose proof (role_record_length t w role); lia.
Qed.

Lemma role_records_spec t w roles :
  Forall (fun r => r_term r = t
                   /\ exists xpath, In (r_job_title r, xpath) roles)
         (flat_map (role_record t w) roles).
Proof.
  apply Forall_forall; intros r Hin.
  apply in_flat_map in Hin; destruct Hin as ([job xpath] & Hrole & Hin).
  unfold role_record in Hin; cbn [fst snd] in Hin.
  destruct (find_field w xpath) as [td|]; [|destruct Hin].
  destruct (extract_contact_info td) as [[[name phone] email]|]; [|destruct Hin].
  destruct (String.eqb name NA); [destruct Hin|].
  destruct Hin as [<-|[]]; simpl; eauto.
Qed.

(** The records one visit adds: none, or those of the roles. *)
Lemma iteration_records cfg st t w :
  exists new,
    scraped_records (fst (iteration cfg st t w)) = scraped_records st ++ new
    /\ List.length new <= List.length (contact_data_xpaths cfg)
    /\ Forall (fun r => r_term r = t
                        /\ exists xpath,
                             In (r_job_title r, xpath) (contact_data_xpaths cfg))
              new.
Proof.
  assert (Hnone : exists new,
             scraped_records st = scraped_records st ++ new
             /\ List.length new <= List.length (contact_data_xpaths cfg)
             /\ Forall (fun r => r_term r = t
                                 /\ exists xpath,
                                      In (r_job_title r, xpath)
                                         (contact_data_xpaths cfg)) new).
  { exists []; rewrite app_nil_r; simpl; repeat split; [lia|constructor]. }
  assert (Hext : forall st0,
             scraped_records st0 = scraped_records st ->
             exists new,
               scraped_records (extract_term cfg st0 t w)
               = scraped_records st ++ new
               /\ List.length new <= List.length (contact_data_xpaths cfg)
               /\ Forall (fun r => r_term r = t
                                   /\ exists xpath,
                                        In (r_job_title r, xpath)
                                           (contact_data_xpaths cfg)) new).
  { intros st0 E; unfold extract_term.
    rewrite extract_roles_flat_map, E.
    exists (flat_map (role_record t w) (contact_data_xpaths cfg)).
    split; [|split; [apply role_records_length|apply role_records_spec]].
    destruct (false || negb (is_nil (flat_map (role_record t w)
                                       (contact_data_xpaths cfg))));
      reflexivity. }
  unfold iteration.
  destruct (get w (url cfg)); [|exact Hnone].
  destruct (wait_search_bar w (search_bar_id cfg)) as [|[]]; try exact Hnone.
  destruct (send_keys w (clean_search_term t)); [|exact Hnone].
  destruct (landed_on_detail_page cfg (clean_search_term t) w) as [[]|];
    [apply Hext; reflexivity| |exact Hnone].
  destruct (open_result cfg (clean_search_term t) w) as [[]|];
    [apply Hext; reflexivity|exact Hnone|exact Hnone|exact Hnone].
Qed.

Lemma records_for_app key a b :
  records_for key (a ++ b) = records_for key a ++ records_for key b.
Proof. unfold records_for; apply filter_app. Qed.

Lemma records_for_other key recs :
  Forall (fun r => r_term r <> key) recs -> records_for key recs = [].
Proof.
  unfold records_for; induction 1 as [|r l Hr Hl IH]; [reflexivity|].
  simpl; apply String.eqb_neq in Hr; rewrite Hr; exact IH.
Qed.

Lemma records_for_length key recs :
  List.length (records_for key recs) <= List.length recs.
Proof. unfold records_for; apply filter_length_le. Qed.

(** The records a loop adds: their terms and roles, and how many a term
    gets. *)
Lemma loop_records cfg browser : forall terms st,
  exists new,
    scraped_records (fst (loop cfg browser st terms)) = scraped_records st ++ new
    /\ Forall (fun r => In (r_term r) terms
                        /\ exists xpath,
                             In (r_job_title r, xpath) (contact_data_xpaths cfg))
              new
    /\ (NoDup terms ->
        forall key, List.length (records_for key new)
                    <= List.length (contact_data_xpaths cfg)).
Proof.
  induction terms as [|t terms IH]; intros st.
  - exists []; simpl; rewrite app_nil_r; repeat split; [constructor|].
    intros _ key; simpl; lia.
  - rewrite loop_cons.
    destruct (iteration_records cfg st t (browser t)) as (new & Hr & Hlen & Hnew).
    assert (Hstop : exists new0,
               scraped_records (fst (iteration cfg st t (browser t)))
               = scraped_records st ++ new0
               /\ Forall (fun r => In (r_term r) (t :: terms)
                                   /\ exists xpath,
                                        In (r_job_title r, xpath)
                                           (contact_data_xpaths cfg)) new0
               /\ (NoDup (t :: terms) ->
                   forall key, List.length (records_for key new0)
                               <= List.length (contact_data_xpaths cfg))).
    { exists new; split; [exact Hr|split].
      - eapply Forall_impl; [|exact Hnew]; simpl.
        intros r [-> Hx]; auto.
      - intros _ key; pose proof (records_for_length key new); lia. }
    destruct (snd (iteration cfg st t (browser t))); [|exact Hstop|exact Hstop].
    destruct (IH (fst (iteration cfg st t (browser t)))) as (new' & Hr' & Hnew' & Hcount).
    exists (new ++ new'); split; [rewrite Hr', Hr, app_assoc; reflexivity|split].
    + apply Forall_app; split.
      * eapply Forall_impl; [|exact Hnew]; simpl; intros r [-> Hx]; auto.
      * eapply Forall_impl; [|exact Hnew']; simpl; intros r [Hin Hx]; auto.
    + intros Hnd key; inversion Hnd as [|? ? Hnotin Hnd']; subst.
      rewrite records_for_app, length_app.
      destruct (String.eqb_spec t key) as [<-|Hne].
      * rewrite (records_for_other t new'), Nat.add_0_r.
        -- pose proof (records_for_length t new); lia.
        -- eapply Forall_impl; [|exact Hnew']; simpl.
           intros r [Hin _] E; rewrite E in Hin; auto.
      * rewrite (records_for_other key new); [apply (Hcount Hnd')|].
        eapply Forall_impl; [|exact Hnew]; simpl.
        intros r [-> _]; exact Hne.
Qed.

(** *** The driver *)

Lemma loop_gets cfg browser : forall terms st,
  exists k,
    k <= List.length terms
    /\ driver_calls (fst (loop cfg browser st terms))
       = driver_calls st ++ repeat (DGet (url cfg)) k
    /\ (terms <> [] -> 1 <= k)
    /\ (snd (loop cfg browser st terms) = Continue -> k = List.length terms).
Proof.
  induction terms as [|t terms IH]; intros st.
  - exists 0; simpl; rewrite app_nil_r; repeat split; auto; congruence.
  - rewrite loop_cons.
    pose proof (iteration_calls cfg st t (browser t)) as Hc.
    destruct (snd (iteration cfg st t (browser t))) eqn:E.
    + destruct (IH (fst (iteration cfg st t (browser t))))
        as (k & Hk & Hcalls & _ & Hall).
      exists (S k); rewrite Hcalls, Hc, <- app_assoc; simpl.
      repeat split; auto; try lia;
        try (intros H; rewrite (Hall H); reflexivity).
    + exists 1; rewrite Hc; simpl; repeat split; auto; try lia;
        try (intros H; rewrite E in H; discriminate H).
    + exists 1; rewrite Hc; simpl; repeat split; auto; try lia;
        try (intros H; rewrite E in H; discriminate H).
Qed.

(** X9: The calls a run makes on the driver.  A run that returns before a
    browser exists makes none.  A run whose browser starts and whose
    [maximize_window()] raises makes that call and no other: it returns at
    line 118 and the browser is never quit.  Any other run calls
    [maximize_window], then [driver.get] with the configured URL once for
    each term it visits, at least once, and then [driver.quit], once and
    last, whether the loop ran to its end or not; when the loop runs to its
    end the number of [driver.get] calls is the number of search terms. *)
Theorem driver_gets_then_quits cfg rd fx mx q browser :
  let o := run_scraper_with_config cfg rd fx mx q browser in
  (ended o = ReturnedEarly /\ driver_calls (final o) = [])
  \/ (ended o = BrowserLeftOpen
      /\ fx = Ok tt
      /\ (exists e, mx = Raise e)
      /\ driver_calls (final o) = [DMaximize])
  \/ exists c df i k,
       ended o = Ran c
       /\ rd = Ok df
       /\ index_of (input_column cfg) (columns df) = Some i
       /\ fx = Ok tt
       /\ mx = Ok tt
       /\ 1 <= k <= List.length (search_terms_of df i)
       /\ driver_calls (final o)
          = DMaximize :: repeat (DGet (url cfg)) k ++ [DQuit]
       /\ (c = Continue -> k = List.length (search_terms_of df i)).
Proof.
  intros o; subst o; unfold run_scraper_with_config.
  destruct rd as [df|e]; [|left; split; reflexivity].
  destruct (index_of (input_column cfg) (columns df)) as [i|] eqn:Hi;
    [|left; split; reflexivity].
  destruct (search_terms_of df i) as [|t ts] eqn:Et; [left; split; reflexivity|].
  destruct fx as [[]|e]; [|left; split; reflexivity].
  destruct mx as [[]|e]; [|right; left; repeat split; eauto].
  right; right.
  destruct (loop_gets cfg browser (t :: ts) started)
    as (k & Hk & Hcalls & Hone & Hall).
  destruct (loop cfg browser started (t :: ts)) as [st c]; cbn [fst snd] in *.
  exists c, df, i, k.
  rewrite finish_final, finish_ended; cbn [call driver_calls].
  rewrite Hcalls, Et; simpl.
  repeat split; auto.
  apply Hone; discriminate.
Qed.

(** *** The records *)

(** X10: No record is lost or invented between the pages and the sheet: every
    record a run collects has a search term as key and a configured role as
    job title, and, when [driver.quit()] returns, is in a row of the frame
    handed to [to_excel]. *)
Theorem every_record_is_written cfg df i fx mx browser r :
  index_of (input_column cfg) (columns df) = Some i ->
  In r (scraped_records
          (final (run_scraper_with_config cfg (Ok df) fx mx (Ok tt) browser))) ->
  In (r_term r) (search_terms_of df i)
  /\ (exists xpath, In (r_job_title r, xpath) (contact_data_xpaths cfg))
  /\ exists out row,
       to_excel_call (run_scraper_with_config cfg (Ok df) fx mx (Ok tt) browser)
       = Some out
       /\ In row (rows df)
       /\ key_of i row = Some (r_term r)
       /\ In (row, Some r) out.
Proof.
  intros Hi.
  destruct (run_cases cfg (Ok df) fx mx (Ok tt) browser)
    as [E|[E|(df' & i' & Ed & Hi' & E)]];
    rewrite E; [intros []|intros []|].
  injection Ed as <-; assert (i' = i) as -> by congruence.
  cbn [finish final to_excel_call call scraped_records].
  destruct (loop_records cfg browser (search_terms_of df i) started)
    as (new & Hr & Hnew & _).
  simpl in Hr; rewrite Hr; intros Hin.
  rewrite Forall_forall in Hnew; destruct (Hnew r Hin) as [Hterm Hrole].
  split; [exact Hterm|split; [exact Hrole|]].
  destruct (search_term_has_row df i (r_term r) Hterm) as (row & Hrow & Hkey).
  destruct new as [|r0 rs]; [destruct Hin|].
  exists (merge df i (r0 :: rs)), row.
  repeat split; auto.
  apply merge_some; auto.
Qed.

Lemma every_record_is_written_witness :
  exists r out row,
    to_excel_call (run_scraper_with_config WEBSITE_CONFIG (Ok (sheet ["Alameda"]))
                     (Ok tt) (Ok tt) (Ok tt) (fun _ => found_jane)) = Some out
    /\ In (row, Some r) out.
Proof.
  destruct (every_record_is_written WEBSITE_CONFIG (sheet ["Alameda"]) 0 (Ok tt)
              (Ok tt) (fun _ => found_jane)
              {| r_term := "Alameda"; r_name := "Jane Roe";
                 r_job_title := "Superintendent"; r_email := "N/A";
                 r_phone := "N/A" |}
              eq_refl (or_introl eq_refl))
    as (_ & _ & out & row & Hout & _ & _ & Hin).
  eexists _, out, row; split; [exact Hout|exact Hin].
Defined.

Lemma merge_row_bound i scraped row n :
  (forall key, List.length (records_for key scraped) <= n) ->
  List.length (merge_row i scraped row) <= Nat.max 1 n.
Proof.
  intros H; unfold merge_row.
  destruct (key_of i row) as [key|]; [|cbn [List.length]; lia].
  specialize (H key).
  destruct (records_for key scraped) as [|m ms]; [cbn [List.length]; lia|].
  rewrite length_map; lia.
Qed.

Lemma merge_bound df i scraped n :
  (forall key, List.length (records_for key scraped) <= n) ->
  List.length (merge df i scraped) <= List.length (rows df) * Nat.max 1 n.
Proof.
  intros H; unfold merge; induction (rows df) as [|row l IH];
    cbn [flat_map List.length]; [lia|].
  rewrite length_app; pose proof (merge_row_bound i scraped row n H); lia.
Qed.

(** X11: A term gets at most one record per configured role, so that the frame
    handed to [to_excel] has at most as many rows as the sheet has rows
    times the number of roles (times one when no role is configured). *)
Theorem rows_per_term_bounded cfg df i fx mx q browser :
  index_of (input_column cfg) (columns df) = Some i ->
  let o := run_scraper_with_config cfg (Ok df) fx mx q browser in
  (forall key,
     List.length (records_for key (scraped_records (final o)))
     <= List.length (contact_data_xpaths cfg))
  /\ (forall out,
        to_excel_call o = Some out ->
        List.length out
        <= List.length (rows df)
           * Nat.max 1 (List.length (contact_data_xpaths cfg))).
Proof.
  intros Hi o.
  assert (Hkey : forall key,
             List.length (records_for key (scraped_records (final o)))
             <= List.length (contact_data_xpaths cfg)).
  { destruct (run_cases cfg (Ok df) fx mx q browser)
      as [E|[E|(df' & i' & Ed & Hi' & E)]];
      subst o; rewrite E; [intros key; simpl; lia|intros key; simpl; lia|].
    injection Ed as <-; assert (i' = i) as -> by congruence.
    rewrite finish_final; cbn [call scraped_records].
    destruct (loop_records cfg browser (search_terms_of df i) started)
      as (new & Hr & _ & Hcount).
    simpl in Hr; rewrite Hr; apply Hcount, unique_NoDup. }
  split; [exact Hkey|].
  intros out Hout.
  destruct (run_to_excel cfg (Ok df) fx mx q browser out Hout)
    as (df' & i' & Ed & Hi' & ->).
  injection Ed as <-; assert (i' = i) as -> by congruence.
  apply merge_bound, Hkey.
Qed.

Lemma rows_per_term_bounded_witness :
  exists out,
    to_excel_call (run_scraper_with_config WEBSITE_CONFIG (Ok (sheet ["Alameda"; "B"]))
                     (Ok tt) (Ok tt) (Ok tt) (fun _ => found_jane)) = Some out
    /\ List.length out <= 2 * 2.
Proof.
  eexists; split; [reflexivity|].
  apply (proj2 (rows_per_term_bounded WEBSITE_CONFIG (sheet ["Alameda"; "B"]) 0
                  (Ok tt) (Ok tt) (Ok tt) (fun _ => found_jane) eq_refl)).
  reflexivity.
Defined.

(** *** The summary *)

Lemma has_record_app a b t :
  has_record (a ++ b) t = has_record a t || has_record b t.
Proof. unfold has_record; apply existsb_app. Qed.

Lemma has_record_false recs t :
  Forall (fun r => r_term r <> t) recs -> has_record recs t = false.
Proof.
  unfold has_record; induction 1 as [|r l Hr Hl IH]; [reflexivity|].
  simpl; apply String.eqb_neq in Hr; rewrite Hr; exact IH.
Qed.

Lemma filter_has_record_none recs terms :
  Forall (fun r => ~ In (r_term r) terms) recs ->
  filter (has_record recs) terms = [].
Proof.
  intros H; induction terms as [|t terms IH]; [reflexivity|].
  simpl; rewrite has_record_false.
  - apply IH; eapply Forall_impl; [|exact H]; simpl; intros r Hr Hin; auto.
  - eapply Forall_impl; [|exact H]; simpl; intros r Hr E; apply Hr; auto.
Qed.

(** The count of processed terms is the number of terms that got a record,
    for a loop over distinct terms none of which has a record yet. *)
Lemma loop_processed cfg browser : forall terms st,
  NoDup terms ->
  Forall (fun r => ~ In (r_term r) terms) (scraped_records st) ->
  processed_count (fst (loop cfg browser st terms))
  = processed_count st
    + List.length (filter (has_record (scraped_records (fst (loop cfg browser st terms))))
                          terms).
Proof.
  induction terms as [|t terms IH]; intros st Hnd Hfresh; [simpl; lia|].
  inversion Hnd as [|? ? Hnotin Hnd']; subst.
  assert (Hfresh' : Forall (fun r => ~ In (r_term r) terms) (scraped_records st)).
  { eapply Forall_impl; [|exact Hfresh]; simpl; intros r Hr Hin; auto. }
  assert (Hfresh_t : Forall (fun r => r_term r <> t) (scraped_records st)).
  { eapply Forall_impl; [|exact Hfresh]; simpl; intros r Hr E; apply Hr; auto. }
  rewrite loop_cons.
  pose proof (iteration_visit cfg st t (browser t)) as Hv.
  destruct (iteration cfg st t (browser t)) as [st' c]; cbn [fst snd] in *.
  inversion Hv as [c' Hc Hp Hs Hr|reason Hin Hp Hs Hr E|new Hne Hnew Hp Hs Hr E];
    subst.
  - assert (Hres : fst (match c with
                        | Continue => loop cfg browser st' terms
                        | _ => (st', c)
                        end) = st') by (destruct c; [congruence| |]; reflexivity).
    rewrite Hres, Hr, Hp, (filter_has_record_none _ _ Hfresh); simpl; lia.
  - destruct (loop_outcomes cfg browser terms st')
      as (done & rest & outs & new & Hd & _ & _ & _ & Hrec & Hnew & _).
    rewrite IH; [|exact Hnd'|rewrite Hr; exact Hfresh'].
    rewrite Hp; cbn [filter].
    replace (has_record (scraped_records (fst (loop cfg browser st' terms))) t)
      with false; [reflexivity|].
    symmetry; rewrite Hrec, Hr, has_record_app.
    rewrite (has_record_false _ _ Hfresh_t), has_record_false; [reflexivity|].
    eapply Forall_impl; [|exact Hnew]; simpl.
    intros r [Hdone _] E; apply Hnotin; rewrite Hd, <- E.
    apply in_or_app; left; exact Hdone.
  - destruct (loop_outcomes cfg browser terms st')
      as (done & rest & outs & new' & Hd & _ & _ & _ & Hrec & Hnew' & _).
    rewrite IH; [|exact Hnd'|].
    + rewrite Hp; cbn [filter].
      replace (has_record (scraped_records (fst (loop cfg browser st' terms))) t)
        with true; [simpl; lia|].
      symmetry; rewrite Hrec, Hr, !has_record_app.
      destruct new as [|r0 rs]; [congruence|].
      inversion Hnew as [|? ? [Hterm _] _]; subst.
      unfold has_record at 2; simpl; rewrite String.eqb_refl.
      rewrite orb_true_r; reflexivity.
    + rewrite Hr; apply Forall_app; split; [exact Hfresh'|].
      eapply Forall_impl; [|exact Hnew]; simpl.
      intros r [-> _]; exact Hnotin.
Qed.

(** X12: The count printed as "Successfully processed" is the number of search
    terms that have at least one record, however the run went. *)
Theorem processed_count_is_terms_with_records cfg df i fx mx q browser :
  index_of (input_column cfg) (columns df) = Some i ->
  let o := run_scraper_with_config cfg (Ok df) fx mx q browser in
  processed_count (final o)
  = List.length (filter (has_record (scraped_records (final o)))
                        (search_terms_of df i)).
Proof.
  intros Hi o.
  destruct (run_cases cfg (Ok df) fx mx q browser)
    as [E|[E|(df' & i' & Ed & Hi' & E)]];
    subst o; rewrite E.
  - simpl; rewrite filter_has_record_none; [reflexivity|constructor].
  - simpl; rewrite filter_has_record_none; [reflexivity|constructor].
  - injection Ed as <-; assert (i' = i) as -> by congruence.
    rewrite finish_final; cbn [call processed_count scraped_records].
    rewrite loop_processed; [reflexivity|apply unique_NoDup|constructor].
Qed.

Lemma processed_count_is_terms_with_records_witness :
  processed_count
    (final (run_scraper_with_config WEBSITE_CONFIG (Ok (sheet ["Alameda"; "B"]))
              (Ok tt) (Ok tt) (Ok tt)
              (fun t => if String.eqb t "B" then no_results else found_jane)))
  = 1.
Proof.
  exact (processed_count_is_terms_with_records WEBSITE_CONFIG
           (sheet ["Alameda"; "B"]) 0 (Ok tt) (Ok tt) (Ok tt)
           (fun t => if String.eqb t "B" then no_results else found_jane)
           eq_refl).
Defined.

(** *** The terms *)

Lemma unique_In l x : In x (unique l) <-> In x l.
Proof.
  split; [apply unique_incl|].
  induction l as [|a l IH]; simpl; [auto|].
  intros [->|H]; [auto|].
  destruct (String.eqb_spec x a) as [->|Hne]; [auto|right].
  apply filter_In; split; [auto|].
  apply negb_true_iff, String.eqb_neq; exact Hne.
Qed.

Lemma dropna_In_iff cells v : In v (dropna cells) <-> In (Some v) cells.
Proof.
  split; [apply dropna_In|].
  induction cells as [|[a|] cells IH]; simpl; [auto| |].
  - intros [E|H]; [injection E as ->; auto|auto].
  - intros [E|H]; [discriminate|auto].
Qed.

Lemma filter_all {A} (f : A -> bool) l :
  Forall (fun x => f x = true) l -> filter f l = l.
Proof.
  induction 1 as [|x l Hx Hl IH]; [reflexivity|].
  simpl; rewrite Hx, IH; reflexivity.
Qed.

Lemma unique_of_NoDup l : NoDup l -> unique l = l.
Proof.
  induction 1 as [|x l Hx Hl IH]; [reflexivity|].
  simpl; rewrite IH; f_equal.
  apply filter_all, Forall_forall; intros y Hy.
  apply negb_true_iff, String.eqb_neq; intros ->; auto.
Qed.

(** X13: The search terms are the values of the key column: a text is a search
    term exactly when it is the key of some row (an empty cell gives no
    term); and when the values of the column are all different the terms are
    these values in the order of the rows. *)
Theorem search_terms_are_the_keys df i :
  (forall t,
     In t (search_terms_of df i)
     <-> exists row, In row (rows df) /\ key_of i row = Some t)
  /\ (NoDup (dropna (map (key_of i) (rows df))) ->
      search_terms_of df i = dropna (map (key_of i) (rows df))).
Proof.
  split.
  - intros t; unfold search_terms_of.
    rewrite unique_In, dropna_In_iff, in_map_iff; split.
    + intros (row & Hk & Hin); eauto.
    + intros (row & Hin & Hk); eauto.
  - apply unique_of_NoDup.
Qed.

Lemma search_terms_are_the_keys_witness :
  search_terms_of (sheet ["B"; "A"; "C"]) 0 = ["B"; "A"; "C"].
Proof.
  apply (proj2 (search_terms_are_the_keys (sheet ["B"; "A"; "C"]) 0)).
  repeat constructor; simpl; intuition discriminate.
Defined.

End RunMore.

(** ** [contactScraper.py] *)

Module CdeFacts.
Import PyStr Scraper ContactScraper Cde CdeSamples Samples Measures.
Import LoopFacts RunFacts.

Local Ltac not_passed H :=
  let t := fresh "t" in
  destruct H as [H|(H & t & ? & ?)]; congruence.

(** X14: The loop of [contactScraper.py] answers "no link" exactly when it passes
    over every link (the link is hidden, or displayed with a text that was
    read and does not contain the name); it answers the index [n] exactly
    when the link at [n] is displayed, contains the name and was clicked,
    and every link before it is passed over. *)
Theorem click_displayed_match_first name : forall links i,
  (click_displayed_match name links i = Ok None
   <-> Forall (passed_over name) links)
  /\ (forall n,
        click_displayed_match name links i = Ok (Some n)
        <-> exists k l t,
              n = i + k /\ nth_error links k = Some l
              /\ is_displayed l = Ok true
              /\ text l = Ok t
              /\ contains (lower_str name) (lower_str t) = true
              /\ click l = Ok tt
              /\ Forall (passed_over name) (firstn k links)).
Proof.
  induction links as [|a links IH]; intros i; cbn [click_displayed_match].
  - split; [split; [constructor|reflexivity]|].
    intros n; split; [discriminate|].
    intros ([|k] & l & t & _ & Hn & _); discriminate.
  - destruct (IH (S i)) as [IHnone IHsome].
    assert (Hskip :
      passed_over name a ->
      (click_displayed_match name links (S i) = Ok None
       <-> Forall (passed_over name) (a :: links))
      /\ (forall n,
            click_displayed_match name links (S i) = Ok (Some n)
            <-> exists k l t,
                  n = i + k /\ nth_error (a :: links) k = Some l
                  /\ is_displayed l = Ok true
                  /\ text l = Ok t
                  /\ contains (lower_str name) (lower_str t) = true
                  /\ click l = Ok tt
                  /\ Forall (passed_over name) (firstn k (a :: links)))).
    { intros Ha; split.
      - rewrite IHnone; split.
        + intros H; constructor; assumption.
        + intros H; inversion H; assumption.
      - intros n; rewrite IHsome; split.
        + intros (k & l & t' & -> & Hn & Hd & Ht & Hc & Hk & Hbefore).
          exists (S k), l, t'.
          split; [lia|]; repeat (split; [solve [auto]|]).
          cbn [firstn]; constructor; assumption.
        + intros ([|k] & l & t' & -> & Hn & Hd & Ht & Hc & Hk & Hbefore).
          * injection Hn as <-; not_passed Ha.
          * exists k, l, t'.
            split; [lia|]; repeat (split; [solve [auto]|]).
            cbn [firstn] in Hbefore; inversion Hbefore; assumption. }
    destruct (is_displayed a) as [[]|e] eqn:Ed.
    + destruct (text a) as [t|e] eqn:Et.
      * destruct (contains (lower_str name) (lower_str t)) eqn:Ec.
        -- split.
           ++ destruct (click a) as [[]|]; split; try discriminate;
                intros H; inversion H as [|? ? Hp _]; subst; not_passed Hp.
           ++ intros n; split.
              ** destruct (click a) as [[]|] eqn:Ek; [|discriminate].
                 intros H; injection H as <-.
                 exists 0, a, t; rewrite Nat.add_0_r.
                 repeat (split; [solve [auto]|]); constructor.
              ** intros ([|k] & l & t' & -> & Hn & Hd & Ht & Hc & Hk & Hbefore).
                 --- injection Hn as <-; rewrite Hk, Nat.add_0_r; reflexivity.
                 --- inversion Hbefore as [|? ? Hp _]; subst; not_passed Hp.
        -- apply Hskip; right; split; [exact Ed|eauto].
      * split.
        -- split; [discriminate|].
           intros H; inversion H as [|? ? Hp _]; subst; not_passed Hp.
        -- intros n; split; [discriminate|].
           intros ([|k] & l & t' & -> & Hn & Hd & Ht & Hc & Hk & Hbefore).
           ++ injection Hn as <-; congruence.
           ++ inversion Hbefore as [|? ? Hp _]; subst; not_passed Hp.
    + apply Hskip; left; exact Ed.
    + split.
      * split; [discriminate|].
        intros H; inversion H as [|? ? Hp _]; subst; not_passed Hp.
      * intros n; split; [discriminate|].
        intros ([|k] & l & t' & -> & Hn & Hd & Ht & Hc & Hk & Hbefore).
        -- injection Hn as <-; congruence.
        -- inversion Hbefore as [|? ? Hp _]; subst; not_passed Hp.
Qed.

Lemma click_displayed_match_first_witness :
  click_displayed_match "alameda" alameda_links_first_hidden 0 = Ok (Some 1).
Proof.
  apply (proj2 (click_displayed_match_first "alameda" alameda_links_first_hidden 0) 1).
  exists 1, (link "East Alameda" true), "East Alameda".
  repeat (split; [reflexivity|]).
  repeat constructor; left; reflexivity.
Defined.

(** X15: On links that are all displayed the loops of the two scripts do the
    same: they differ only in what they do with a link that is hidden. *)
Theorem matchers_agree_on_displayed name : forall links i,
  Forall (fun l => is_displayed l = Ok true) links ->
  click_displayed_match name links i = Scraper.click_matching name links i.
Proof.
  induction links as [|a links IH]; intros i H; [reflexivity|].
  inversion H as [|? ? Ha Hl]; subst.
  cbn [click_displayed_match Scraper.click_matching]; rewrite Ha.
  destruct (text a) as [t|]; [|reflexivity].
  destruct (contains (lower_str name) (lower_str t)); [reflexivity|].
  apply IH, Hl.
Qed.

Lemma matchers_agree_on_displayed_witness :
  click_displayed_match "alameda" alameda_links 0
  = Scraper.click_matching "alameda" alameda_links 0.
Proof.
  apply matchers_agree_on_displayed; repeat constructor.
Defined.

(** *** The visits *)

Lemma visit_name_ok s name w : snd (visit_name s name w) = Ok tt.
Proof.
  unfold visit_name.
  destruct (body (announce s name) name w) as [s' [[]|e]]; [reflexivity|].
  destruct (get_recover w); [|reflexivity].
  destruct (wait_bar_recover w); reflexivity.
Qed.

Lemma body_announced s name w : announced (fst (body s name w)) = announced s.
Proof.
  unfold body, link_step, find_and_click.
  destruct (wait_bar w); [|reflexivity].
  destruct (type_name w name); [|reflexivity].
  destruct (wait_clickable w) as [|[]]; try reflexivity.
  - destruct (find_elements w) as [links|]; [|destruct (get_on_error w); reflexivity].
    destruct (click_displayed_match name links 0) as [[n|]|];
      [| |destruct (get_on_error w); reflexivity].
    + destruct (back w); [|destruct (get_on_error w); reflexivity].
      destruct (wait_bar_after_back w); [reflexivity|].
      destruct (get_on_error w); reflexivity.
    + destruct (get_no_link w); [|destruct (get_on_error w); reflexivity].
      destruct (wait_bar_no_link w); [reflexivity|].
      destruct (get_on_error w); reflexivity.
  - destruct (get_after_timeout w); reflexivity.
Qed.

Lemma visit_name_announced s name w :
  announced (fst (visit_name s name w)) = announced s ++ [name].
Proof.
  unfold visit_name.
  pose proof (body_announced (announce s name) name w) as H.
  destruct (body (announce s name) name w) as [s' [[]|e]]; cbn [fst] in *;
    [exact H|].
  destruct (get_recover w); [|exact H].
  destruct (wait_bar_recover w); exact H.
Qed.

Lemma visit_names_all browser : forall names s,
  snd (visit_names browser s names) = Ok tt
  /\ announced (fst (visit_names browser s names)) = announced s ++ names.
Proof.
  induction names as [|n names IH]; intros s.
  - simpl; rewrite app_nil_r; auto.
  - cbn [visit_names].
    pose proof (visit_name_ok s n (browser n)) as Hok.
    pose proof (visit_name_announced s n (browser n)) as Ha.
    destruct (visit_name s n (browser n)) as [s' [[]|e]]; cbn [fst snd] in *;
      [|discriminate].
    destruct (IH s') as [H1 H2]; split; [exact H1|].
    rewrite H2, Ha, <- app_assoc; reflexivity.
Qed.

(** X16: Once the browser has started and the entry page was asked for, no answer
    of the browser ends the loop of [contactScraper.py] early: every
    district name of the file is announced, in order, and nothing else. *)
Theorem every_district_is_visited read_csv read_excel column browser df i :
  read_districts read_csv read_excel = Ok df ->
  index_of column (columns df) = Some i ->
  announced (search_districts_and_click_link_on_cde read_csv read_excel column
               (Ok tt) (Ok tt) (Ok tt) browser)
  = search_terms_of df i.
Proof.
  intros Hr Hi; unfold search_districts_and_click_link_on_cde; rewrite Hr, Hi.
  destruct (search_terms_of df i) as [|n names] eqn:E; [reflexivity|].
  cbn [nav_call announced].
  destruct (visit_names_all browser (n :: names) (nav_call start (Get CDE_URL)))
    as [_ H].
  rewrite H; reflexivity.
Qed.

Lemma every_district_is_visited_witness :
  announced (search_districts_and_click_link_on_cde (Raise OtherException)
               (Ok districts) "District" (Ok tt) (Ok tt) (Ok tt) (fun _ => lost))
  = ["Manteca Unified"; "Anaheim Union High"].
Proof.
  exact (every_district_is_visited (Raise OtherException) (Ok districts) "District"
           (fun _ => lost) districts 0 eq_refl eq_refl).
Defined.

Lemma visit_name_no_quit s name w :
  exists more,
    navs (fst (visit_name s name w)) = navs s ++ more /\ ~ In Quit more.
Proof.
  unfold visit_name, body, link_step, find_and_click.
  repeat match goal with
         | |- context [match ?x with _ => _ end] =>
             lazymatch x with
             | context [match _ with _ => _ end] => fail
             | _ => destruct x
             end
         end;
    cbn [fst nav_call announce navs]; rewrite <- ?app_assoc;
    (eexists; split; [reflexivity|]);
    cbn [app In]; intuition discriminate.
Qed.

(** X17: Every visit of a name leaves the session on its way back to the search
    page: the calls it makes on the driver are one to three
    [driver.get(CDE_URL)], or one [driver.back()] followed by at most two
    [driver.get(CDE_URL)]; and [driver.back()] is called only when a link was
    clicked. *)
Theorem visit_returns_to_search_page s name w :
  exists k,
    k <= 2
    /\ (navs (fst (visit_name s name w))
        = navs s ++ repeat (Get CDE_URL) (S k)
        \/ (navs (fst (visit_name s name w))
            = navs s ++ Back :: repeat (Get CDE_URL) k
            /\ exists links n,
                 find_elements w = Ok links
                 /\ click_displayed_match name links 0 = Ok (Some n))).
Proof.
  unfold visit_name, body, link_step, find_and_click.
  destruct (wait_bar w);
    [|exists 0; split; [lia|left; destruct (get_recover w) as [|];
                              [destruct (wait_bar_recover w)|]; reflexivity]].
  destruct (type_name w name);
    [|exists 0; split; [lia|left; destruct (get_recover w) as [|];
                              [destruct (wait_bar_recover w)|]; reflexivity]].
  destruct (wait_clickable w) as [|[]];
    try (exists 0; split; [lia|left; destruct (get_recover w) as [|];
                                 [destruct (wait_bar_recover w)|]; reflexivity]).
  - destruct (find_elements w) as [links|] eqn:Ef.
    + destruct (click_displayed_match name links 0) as [[n|]|] eqn:Em.
      * destruct (back w).
        -- destruct (wait_bar_after_back w).
           ++ exists 0; split; [lia|right; split; [reflexivity|eauto]].
           ++ destruct (get_on_error w).
              ** exists 1; split; [lia|right; split; [|eauto]].
                 cbn; rewrite <- !app_assoc; reflexivity.
              ** exists 2; split; [lia|right; split; [|eauto]].
                 destruct (get_recover w) as [|];
                   [destruct (wait_bar_recover w)|];
                   cbn; rewrite <- !app_assoc; reflexivity.
        -- destruct (get_on_error w).
           ++ exists 1; split; [lia|right; split; [|eauto]].
              cbn; rewrite <- !app_assoc; reflexivity.
           ++ exists 2; split; [lia|right; split; [|eauto]].
              destruct (get_recover w) as [|];
                [destruct (wait_bar_recover w)|];
                cbn; rewrite <- !app_assoc; reflexivity.
      * destruct (get_no_link w).
        -- destruct (wait_bar_no_link w).
           ++ exists 0; split; [lia|left; reflexivity].
           ++ destruct (get_on_error w).
              ** exists 1; split; [lia|left].
                 cbn; rewrite <- !app_assoc; reflexivity.
              ** exists 2; split; [lia|left].
                 destruct (get_recover w) as [|];
                   [destruct (wait_bar_recover w)|];
                   cbn; rewrite <- !app_assoc; reflexivity.
        -- destruct (get_on_error w).
           ++ exists 1; split; [lia|left].
              cbn; rewrite <- !app_assoc; reflexivity.
           ++ exists 2; split; [lia|left].
              destruct (get_recover w) as [|];
                [destruct (wait_bar_recover w)|];
                cbn; rewrite <- !app_assoc; reflexivity.
      * destruct (get_on_error w).
        -- exists 0; split; [lia|left; reflexivity].
        -- exists 1; split; [lia|left].
           destruct (get_recover w) as [|];
             [destruct (wait_bar_recover w)|];
             cbn; rewrite <- !app_assoc; reflexivity.
    + destruct (get_on_error w).
      * exists 0; split; [lia|left; reflexivity].
      * exists 1; split; [lia|left].
        destruct (get_recover w) as [|];
          [destruct (wait_bar_recover w)|];
          cbn; rewrite <- !app_assoc; reflexivity.
  - destruct (get_after_timeout w).
    + exists 0; split; [lia|left; reflexivity].
    + exists 1; split; [lia|left].
      destruct (get_recover w) as [|];
        [destruct (wait_bar_recover w)|];
        cbn; rewrite <- !app_assoc; reflexivity.
Qed.

Lemma visit_names_navs browser : forall names s,
  exists more,
    navs (fst (visit_names browser s names)) = navs s ++ more
    /\ ~ In Quit more.
Proof.
  induction names as [|n names IH]; intros s.
  - exists []; simpl; rewrite app_nil_r; auto.
  - cbn [visit_names].
    pose proof (visit_name_ok s n (browser n)) as Hok.
    destruct (visit_name_no_quit s n (browser n)) as (new & Hnew & Hnq).
    destruct (visit_name s n (browser n)) as [s' [[]|e]]; cbn [fst snd] in *;
      [|discriminate].
    destruct (IH s') as (more & -> & Hq).
    exists (new ++ more); rewrite Hnew, <- app_assoc; split; [reflexivity|].
    intros Hin; apply in_app_or in Hin; tauto.
Qed.

(** X18: [contactScraper.py] starts the browser exactly when the file can be read
    (as CSV, or else as Excel), has the column and the column has a value.
    When the browser starts, [driver.quit] is called exactly once, as the
    last call on the driver, whatever happens in between; otherwise no call
    is made on the driver and no name is announced. *)
Theorem cde_quits_once read_csv read_excel column firefox maximize first_get browser :
  let s := search_districts_and_click_link_on_cde read_csv read_excel column
             firefox maximize first_get browser in
  let started :=
    exists df i,
      read_districts read_csv read_excel = Ok df
      /\ index_of column (columns df) = Some i
      /\ search_terms_of df i <> []
      /\ firefox = Ok tt in
  (started /\ exists before, navs s = before ++ [Quit] /\ ~ In Quit before)
  \/ (~ started /\ navs s = [] /\ announced s = []).
Proof.
  intros s started; subst s started.
  unfold search_districts_and_click_link_on_cde.
  destruct (read_districts read_csv read_excel) as [df|e] eqn:Er.
  - destruct (index_of column (columns df)) as [i|] eqn:Hi.
    + destruct (search_terms_of df i) as [|n names] eqn:Et.
      * right; split; [|auto].
        intros (df' & i' & Ed & Hi' & Hne & _).
        injection Ed as <-; rewrite Hi in Hi'; injection Hi' as <-; auto.
      * destruct firefox as [[]|e].
        -- left; split.
           { exists df, i; rewrite Et; repeat split; auto; discriminate. }
           destruct maximize.
           ++ destruct first_get.
              ** destruct (visit_names_navs browser (n :: names)
                             (nav_call start (Get CDE_URL))) as (more & Hm & Hq).
                 exists (Get CDE_URL :: more); cbn [nav_call navs]; rewrite Hm.
                 split; [reflexivity|].
                 intros [H|H]; [discriminate|auto].
              ** exists [Get CDE_URL]; split; [reflexivity|].
                 intros [H|[]]; discriminate.
           ++ exists []; split; [reflexivity|intros []].
        -- right; split; [|auto].
           intros (_ & _ & _ & _ & _ & H); discriminate.
    + right; split; [|auto].
      intros (df' & i' & Ed & Hi' & _); injection Ed as <-; congruence.
  - right; split; [|auto].
    intros (df' & _ & Ed & _); discriminate.
Qed.

End CdeFacts.

(** ** What [clean_search_term] removes *)

Module SuffixFacts.
Import PyStr Re Scraper Spec Measures Samples.
Import PyStrFacts ReFacts CleanFacts TextFacts.

Lemma lower_str_length s : String.length (lower_str s) = String.length s.
Proof. induction s; simpl; auto. Qed.

Lemma lower_str_app a b : lower_str (a +++ b) = lower_str a +++ lower_str b.
Proof. induction a as [|c a IH]; simpl; [reflexivity|rewrite IH; reflexivity]. Qed.

Lemma app_inv_length a : forall c b d,
  a +++ b = c +++ d -> String.length b = String.length d -> a = c /\ b = d.
Proof.
  induction a as [|x a IH]; intros [|y c] b d H Hl; simpl in H.
  - auto.
  - exfalso; apply (f_equal String.length) in H; simpl in H.
    rewrite append_length in H; lia.
  - exfalso; apply (f_equal String.length) in H; simpl in H.
    rewrite append_length in H; lia.
  - injection H as -> H; destruct (IH _ _ _ H Hl) as [-> ->]; auto.
Qed.

Lemma string_last t : t <> "" -> exists p c, t = p +++ String c "".
Proof.
  induction t as [|a t IH]; [congruence|intros _].
  destruct t as [|b t]; [exists "", a; reflexivity|].
  destruct IH as (p & c & E); [discriminate|].
  exists (String a p), c; simpl; rewrite <- E; reflexivity.
Qed.

Lemma chars_app a b c :
  In c (list_ascii_of_string (a +++ b))
  <-> In c (list_ascii_of_string a) \/ In c (list_ascii_of_string b).
Proof.
  induction a as [|x a IH]; simpl; [tauto|rewrite IH; tauto].
Qed.

Lemma rstrip_fixed_of_last p c :
  is_space c = false -> rstrip (p +++ String c "") = p +++ String c "".
Proof.
  intros Hc; induction p as [|a p IH].
  - simpl; rewrite Hc; reflexivity.
  - cbn [String.append]; rewrite rstrip_cons, IH.
    destruct p; reflexivity.
Qed.

Lemma rstrip_spaces a w :
  (forall c, In c (list_ascii_of_string w) -> is_space c = true) ->
  rstrip (a +++ w) = rstrip a.
Proof.
  revert a; induction w as [|x w IH]; intros a Hw; [rewrite append_nil_r; reflexivity|].
  change (a +++ String x w) with (a +++ (String x "" +++ w)).
  rewrite <- append_assoc, IH.
  - apply rstrip_last_space, Hw; left; reflexivity.
  - intros c Hc; apply Hw; right; exact Hc.
Qed.

Lemma matches_cat_inv a b s rest :
  matches (Cat a b) s rest -> exists s1, matches a s s1 /\ matches b s1 rest.
Proof. intros H; inversion H; subst; eauto. Qed.

Lemma matches_eol_inv s rest :
  matches Eol s rest -> rest = s /\ at_eol s = true.
Proof. intros H; inversion H; subst; auto. Qed.

Lemma matches_plus_shape p s s1 :
  matches (Plus p) s s1 ->
  exists w, s = w +++ s1 /\ w <> ""
            /\ forall c, In c (list_ascii_of_string w) -> p c = true.
Proof.
  intros H; remember (Plus p) as r eqn:Er; revert Er.
  induction H; intros Er; try discriminate; injection Er as ->.
  - exists (String c ""); repeat split; [discriminate|].
    intros x [<-|[]]; assumption.
  - destruct (IHmatches eq_refl) as (w & -> & _ & Hw).
    exists (String c w); repeat split; [discriminate|].
    intros x [<-|Hx]; auto.
Qed.

Lemma matches_lit_shape w : forall s s1,
  matches (lit_ci w) s s1 ->
  exists m, s = m +++ s1 /\ lower_str m = lower_str w.
Proof.
  induction w as [|c w IH]; intros s s1 H; cbn [lit_ci] in H.
  - inversion H; subst; exists ""; auto.
  - inversion H as [|a b s0 s2 s3 Hc Hw| | | | | |]; subst.
    inversion Hc as [p x s0 Hx| | | | | | |]; subst.
    destruct (IH _ _ Hw) as (m & -> & Hm).
    exists (String x m); split; [reflexivity|].
    simpl; rewrite Hm; apply Ascii.eqb_eq in Hx; rewrite Hx; reflexivity.
Qed.

Lemma plus_matches p w rest :
  w <> "" -> (forall c, In c (list_ascii_of_string w) -> p c = true) ->
  matches (Plus p) (w +++ rest) rest.
Proof.
  induction w as [|c w IH]; [congruence|intros _ Hw].
  destruct w as [|d w].
  - apply M_plus_one, Hw; left; reflexivity.
  - cbn [String.append]; apply M_plus_more; [apply Hw; left; reflexivity|].
    apply IH; [discriminate|intros x Hx; apply Hw; right; exact Hx].
Qed.

Lemma lit_matches w : forall m rest,
  lower_str m = lower_str w -> matches (lit_ci w) (m +++ rest) rest.
Proof.
  induction w as [|c w IH]; intros [|x m] rest H; simpl in H; try discriminate.
  - apply M_eps.
  - injection H as Hx Hm; cbn [lit_ci String.append].
    eapply M_cat; [apply M_class; apply Ascii.eqb_eq; exact Hx|apply IH, Hm].
Qed.

Lemma lower_t_not_space c : lower c = "t"%char -> is_space c = false.
Proof. destruct c as [[] [] [] [] [] [] [] []]; vm_compute; congruence. Qed.

Lemma lower_l_not_space c : lower c = "l"%char -> is_space c = false.
Proof. destruct c as [[] [] [] [] [] [] [] []]; vm_compute; congruence. Qed.

(** A text that reads "district" ends in a character that is no space and
    no newline. *)
Lemma district_last d :
  lower_str d = "district" ->
  exists p c, d = p +++ String c "" /\ is_space c = false.
Proof.
  intros H.
  destruct d as [|c1 [|c2 [|c3 [|c4 [|c5 [|c6 [|c7 [|c8 [|c9 d]]]]]]]]];
    try discriminate H.
  injection H as _ _ _ _ _ _ _ H8.
  exists (String c1 (String c2 (String c3 (String c4 (String c5 (String c6
            (String c7 ""))))))), c8.
  split; [reflexivity|apply lower_t_not_space, H8].
Qed.

Lemma school_last sch :
  lower_str sch = "school" ->
  exists p c, sch = p +++ String c "" /\ is_space c = false.
Proof.
  intros H.
  destruct sch as [|c1 [|c2 [|c3 [|c4 [|c5 [|c6 [|c7 d]]]]]]];
    try discriminate H.
  injection H as _ _ _ _ _ H6.
  exists (String c1 (String c2 (String c3 (String c4 (String c5 ""))))), c6.
  split; [reflexivity|apply lower_l_not_space, H6].
Qed.

(** The end of a match of "district$": when the text ends in a word that
    reads "district", the match ends the text and took that word. *)
Lemma district_tail a m rest u d :
  a +++ m +++ rest = u +++ d ->
  lower_str m = "district" -> lower_str d = "district" ->
  at_eol rest = true ->
  rest = "" /\ a = u /\ m = d.
Proof.
  intros E Hm Hd Heol.
  assert (Lm : String.length m = 8)
    by (rewrite <- lower_str_length, Hm; reflexivity).
  assert (Ld : String.length d = 8)
    by (rewrite <- lower_str_length, Hd; reflexivity).
  destruct rest as [|c [|c' rest]]; [| |discriminate Heol].
  - rewrite append_nil_r in E.
    destruct (app_inv_length _ _ _ _ E) as [-> ->]; [lia|auto].
  - exfalso; simpl in Heol; apply Ascii.eqb_eq in Heol; subst c.
    destruct (district_last d Hd) as (p & x & -> & Hx).
    rewrite <- !append_assoc in E.
    destruct (app_inv_length _ _ _ _ E) as [_ E']; [reflexivity|].
    injection E' as <-; discriminate Hx.
Qed.

Lemma district_shape u d rest :
  lower_str d = "district" ->
  matches district_re (u +++ d) rest ->
  rest = "" /\ u <> ""
  /\ forall c, In c (list_ascii_of_string u) -> is_space c = true.
Proof.
  intros Hd H; unfold district_re in H.
  apply matches_cat_inv in H; destruct H as (s1 & Hws & H).
  apply matches_cat_inv in H; destruct H as (s2 & Hlit & H).
  apply matches_eol_inv in H; destruct H as (-> & Hat).
  destruct (matches_plus_shape _ _ _ Hws) as (w & E & Hne & Hw).
  destruct (matches_lit_shape _ _ _ Hlit) as (m & -> & Hm).
  symmetry in E.
  destruct (district_tail w m s2 u d E Hm Hd Hat) as (-> & -> & _); auto.
Qed.

Lemma school_district_shape u sch w1 d rest :
  lower_str sch = "school" -> lower_str d = "district" ->
  (forall c, In c (list_ascii_of_string w1) -> is_space c = true) ->
  matches school_district_re (u +++ sch +++ w1 +++ d) rest ->
  rest = "" /\ u <> ""
  /\ forall c, In c (list_ascii_of_string u) -> is_space c = true.
Proof.
  intros Hsch Hd Hw1 H; unfold school_district_re in H.
  apply matches_cat_inv in H; destruct H as (s1 & Hws & H).
  apply matches_cat_inv in H; destruct H as (s2 & Hlit & H).
  apply matches_cat_inv in H; destruct H as (s3 & Hws2 & H).
  apply matches_cat_inv in H; destruct H as (s4 & Hlit2 & H).
  apply matches_eol_inv in H; destruct H as (-> & Hat).
  destruct (matches_plus_shape _ _ _ Hws) as (w & E & Hne & Hw).
  destruct (matches_lit_shape _ _ _ Hlit) as (m6 & -> & Hm6).
  destruct (matches_plus_shape _ _ _ Hws2) as (w' & -> & Hne' & Hw').
  destruct (matches_lit_shape _ _ _ Hlit2) as (m8 & -> & Hm8).
  assert (E' : (w +++ m6 +++ w') +++ m8 +++ s4 = (u +++ sch +++ w1) +++ d).
  { rewrite !append_assoc; symmetry; exact E. }
  destruct (district_tail _ _ _ _ _ E' Hm8 Hd Hat) as (-> & E2 & _).
  split; [reflexivity|].
  assert (E3 : w +++ m6 = u +++ sch).
  { apply (f_equal rstrip) in E2.
    rewrite <- !append_assoc in E2.
    rewrite (rstrip_spaces _ w' Hw'), (rstrip_spaces _ w1 Hw1) in E2.
    destruct (school_last sch Hsch) as (p & x & -> & Hx).
    destruct (school_last m6 Hm6) as (p' & x' & -> & Hx').
    rewrite <- !append_assoc in E2.
    rewrite !rstrip_fixed_of_last in E2 by assumption.
    rewrite !append_assoc in E2; exact E2. }
  destruct (app_inv_length _ _ _ _ E3) as [-> _]; [|auto].
  rewrite <- (lower_str_length m6), <- (lower_str_length sch), Hm6, Hsch.
  reflexivity.
Qed.

Lemma drop_all s : drop (String.length s) s = "".
Proof. induction s; simpl; auto. Qed.

(** [sub] with a pattern that matches the end of the text, and at no place
    before, removes that end. *)
Lemma sub_end_match r tail : forall y,
  tail <> "" ->
  match_here r tail = Some "" ->
  (forall pre t, y = pre +++ t -> t <> "" -> match_here r (t +++ tail) = None) ->
  sub r "" (y +++ tail) = y.
Proof.
  intros y Hne Hend; unfold sub; induction y as [|a y IH]; intros Hbefore.
  - destruct tail as [|c tail]; [congruence|].
    cbn [String.append sub_go]; rewrite Hend.
    cbn [String.length Nat.sub String.append].
    rewrite sub_go_skip by lia.
    rewrite drop_all; reflexivity.
  - assert (H0 : match_here r (String a y +++ tail) = None)
      by (apply (Hbefore "" (String a y) eq_refl); discriminate).
    cbn [String.append] in H0; cbn [String.append sub_go]; rewrite H0.
    rewrite IH; [reflexivity|].
    intros pre t -> Ht; apply (Hbefore (String a pre) t eq_refl Ht).
Qed.

Lemma suffix_not_spaces y pre t :
  strip y = y -> y = pre +++ t -> t <> "" ->
  ~ (forall c, In c (list_ascii_of_string t) -> is_space c = true).
Proof.
  intros Hs -> Ht Hall.
  destruct (string_last t Ht) as (p & c & ->).
  pose proof (strip_fixed_rstrip _ Hs) as Hr.
  rewrite <- append_assoc in Hr.
  apply rstrip_fixed_last in Hr.
  rewrite Hall in Hr; [discriminate|].
  apply chars_app; right; left; reflexivity.
Qed.

Lemma strip_fixed_app y tail p c :
  strip y = y -> y <> "" -> tail = p +++ String c "" -> is_space c = false ->
  strip (y +++ tail) = y +++ tail.
Proof.
  intros Hs Hne -> Hc; unfold strip.
  destruct y as [|a y]; [congruence|].
  pose proof (lstrip_head _ _ _ (strip_fixed_lstrip _ Hs)) as Ha.
  cbn [String.append]; rewrite (lstrip_fixed_cons _ _ Ha).
  change (String a (y +++ p +++ String c ""))
    with (String a y +++ p +++ String c "").
  rewrite <- append_assoc; apply rstrip_fixed_of_last, Hc.
Qed.

(** X19: When a name that is already stripped and single-spaced is followed by
    spaces and the word "district" in any letter case, and the first rule
    does not apply (the name does not itself end in "school"),
    [clean_search_term] gives back exactly the name. *)
Theorem clean_removes_district y w0 d :
  strip y = y -> sub spaces_re " " y = y -> y <> "" ->
  w0 <> "" -> (forall c, In c (list_ascii_of_string w0) -> is_space c = true) ->
  lower_str d = "district" ->
  search school_district_re (y +++ w0 +++ d) = None ->
  clean_search_term (y +++ w0 +++ d) = y.
Proof.
  intros Hs Hc Hne Hw0ne Hw0 Hd Hschool.
  destruct (district_last d Hd) as (p & x & Ed & Hx).
  assert (Hstrip : strip (y +++ w0 +++ d) = y +++ w0 +++ d).
  { apply (strip_fixed_app y (w0 +++ d) (w0 +++ p) x Hs Hne); [|exact Hx].
    rewrite Ed, append_assoc; reflexivity. }
  unfold clean_search_term.
  rewrite Hstrip, (sub_no_match _ _ _ Hschool), Hstrip.
  rewrite (sub_end_match district_re (w0 +++ d) y).
  - rewrite Hs, Hc; exact Hs.
  - destruct w0; [congruence|discriminate].
  - assert (Hm : matches district_re (w0 +++ d) "").
    { unfold district_re; eapply M_cat; [apply plus_matches; assumption|].
      eapply M_cat; [|apply M_eol; reflexivity].
      rewrite <- (append_nil_r d) at 1; apply lit_matches, Hd. }
    destruct (match_here district_re (w0 +++ d)) as [rest|] eqn:E.
    + apply match_here_sound in E.
      destruct (district_shape _ _ _ Hd E) as (-> & _); reflexivity.
    + exfalso; apply (match_here_complete _ _ _ Hm E).
  - intros pre t Ey Ht.
    destruct (match_here district_re (t +++ w0 +++ d)) as [rest|] eqn:E;
      [exfalso|reflexivity].
    apply match_here_sound in E; rewrite <- append_assoc in E.
    destruct (district_shape _ _ _ Hd E) as (_ & _ & Hall).
    apply (suffix_not_spaces y pre t Hs Ey Ht).
    intros c Hin; apply Hall, chars_app; left; exact Hin.
Qed.

Lemma clean_removes_district_witness :
  clean_search_term ("Manteca Unified" +++ "  " +++ "DISTRICT") = "Manteca Unified".
Proof.
  apply clean_removes_district; try reflexivity; try discriminate.
  intros c [<-|[<-|[]]]; reflexivity.
Defined.

(** X20: When a name that is already stripped and single-spaced, and that does
    not end in spaces and "district", is followed by spaces, the word
    "school", spaces and the word "district", in any letter case,
    [clean_search_term] gives back exactly the name. *)
Theorem clean_removes_school_district y w0 sch w1 d :
  strip y = y -> sub spaces_re " " y = y -> y <> "" ->
  w0 <> "" -> (forall c, In c (list_ascii_of_string w0) -> is_space c = true) ->
  w1 <> "" -> (forall c, In c (list_ascii_of_string w1) -> is_space c = true) ->
  lower_str sch = "school" -> lower_str d = "district" ->
  search district_re y = None ->
  clean_search_term (y +++ w0 +++ sch +++ w1 +++ d) = y.
Proof.
  intros Hs Hc Hne Hw0ne Hw0 Hw1ne Hw1 Hsch Hd Hnone.
  destruct (district_last d Hd) as (p & x & Ed & Hx).
  assert (Hstrip : strip (y +++ w0 +++ sch +++ w1 +++ d)
                   = y +++ w0 +++ sch +++ w1 +++ d).
  { apply (strip_fixed_app y _ (w0 +++ sch +++ w1 +++ p) x Hs Hne); [|exact Hx].
    rewrite Ed, !append_assoc; reflexivity. }
  unfold clean_search_term.
  rewrite Hstrip.
  rewrite (sub_end_match school_district_re (w0 +++ sch +++ w1 +++ d) y).
  - rewrite Hs, (sub_no_match _ _ _ Hnone), Hs, Hc; exact Hs.
  - destruct w0; [congruence|discriminate].
  - assert (Hm : matches school_district_re (w0 +++ sch +++ w1 +++ d) "").
    { unfold school_district_re; eapply M_cat; [apply plus_matches; assumption|].
      eapply M_cat; [apply lit_matches, Hsch|].
      eapply M_cat; [apply plus_matches; assumption|].
      eapply M_cat; [|apply M_eol; reflexivity].
      rewrite <- (append_nil_r d) at 1; apply lit_matches, Hd. }
    destruct (match_here school_district_re (w0 +++ sch +++ w1 +++ d))
      as [rest|] eqn:E.
    + apply match_here_sound in E.
      destruct (school_district_shape _ _ _ _ _ Hsch Hd Hw1 E) as (-> & _).
      reflexivity.
    + exfalso; apply (match_here_complete _ _ _ Hm E).
  - intros pre t Ey Ht.
    destruct (match_here school_district_re (t +++ w0 +++ sch +++ w1 +++ d))
      as [rest|] eqn:E; [exfalso|reflexivity].
    apply match_here_sound in E; rewrite <- append_assoc in E.
    destruct (school_district_shape _ _ _ _ _ Hsch Hd Hw1 E) as (_ & _ & Hall).
    apply (suffix_not_spaces y pre t Hs Ey Ht).
    intros c Hin; apply Hall, chars_app; left; exact Hin.
Qed.

Lemma clean_removes_school_district_witness :
  clean_search_term ("San Francisco Unified" +++ " " +++ "School" +++ " " +++ "District")
  = "San Francisco Unified".
Proof.
  apply clean_removes_school_district; try reflexivity; try discriminate;
    intros c [<-|[]]; reflexivity.
Defined.

End SuffixFacts.

(** ** Further edge cases *)

Module EdgeFacts.
Import PyStr Re Scraper Spec Measures Samples.
Import PyStrFacts ReFacts CleanFacts LoopFacts RunFacts TextFacts RunMore SuffixFacts.

(** [prefix] and [contains] are Python's [startswith] and [in]. *)
Lemma prefix_iff n : forall h,
  prefix n h = true <-> exists post, h = n +++ post.
Proof.
  induction n as [|c n IH]; intros h.
  - rewrite prefix_empty; split; [intros _; exists h; reflexivity|reflexivity].
  - destruct h as [|x h]; simpl.
    + split; [discriminate|intros (post & H); discriminate].
    + destruct (ascii_dec c x) as [->|Hne].
      * rewrite IH; split; intros (post & H).
        -- exists post; rewrite H; reflexivity.
        -- injection H as H; eauto.
      * split; [discriminate|].
        intros (post & H); injection H as H _; congruence.
Qed.

Lemma contains_iff n h :
  contains n h = true <-> exists pre post, h = pre +++ n +++ post.
Proof.
  induction h as [|x h IH]; cbn [contains]; rewrite orb_true_iff, prefix_iff.
  - split.
    + intros [(post & H)|H]; [exists "", post; exact H|discriminate].
    + intros ([|y pre] & post & H); [left; eauto|discriminate].
  - rewrite IH; split.
    + intros [(post & H)|(pre & post & H)].
      * exists "", post; exact H.
      * exists (String x pre), post; rewrite H; reflexivity.
    + intros ([|y pre] & post & H); [left; eauto|right].
      injection H as _ H; eauto.
Qed.

(** X21: [run_scraper_with_config] starts the browser loop exactly when the
    file is read, has the input column, the column has a value, the browser
    starts and [maximize_window()] returns.  When the sheet is not ready or
    [webdriver.Firefox()] raises, it returns with nothing done: no driver
    call, no [to_excel], no skip report, no count.  When the browser starts
    and [maximize_window()] raises, it returns at line 118 after that one
    call on the driver, with the browser left open: no [driver.quit], no
    [to_excel], no skip report. *)
Theorem run_starts_iff cfg rd fx mx q browser :
  let o := run_scraper_with_config cfg rd fx mx q browser in
  let browser_started :=
    exists df i,
      rd = Ok df
      /\ index_of (input_column cfg) (columns df) = Some i
      /\ search_terms_of df i <> []
      /\ fx = Ok tt in
  (browser_started /\ mx = Ok tt /\ exists c, ended o = Ran c)
  \/ (browser_started
      /\ (exists e, mx = Raise e)
      /\ o = browser_left_open
      /\ driver_calls (final o) = [DMaximize]
      /\ to_excel_call o = None
      /\ skipped_file o = None)
  \/ (~ browser_started
      /\ o = returned_early
      /\ driver_calls (final o) = []
      /\ to_excel_call o = None
      /\ skipped_file o = None
      /\ processed_count (final o) = 0).
Proof.
  intros o browser_started; subst o browser_started.
  unfold run_scraper_with_config.
  destruct rd as [df|e].
  - destruct (index_of (input_column cfg) (columns df)) as [i|] eqn:Hi.
    + destruct (search_terms_of df i) as [|t ts] eqn:Et.
      * right; right; split; [|repeat split].
        intros (df' & i' & Ed & Hi' & Hne & _).
        injection Ed as <-; rewrite Hi in Hi'; injection Hi' as <-; auto.
      * destruct fx as [[]|e].
        -- assert (Hb : exists df' i',
                      Ok df = Ok df'
                      /\ index_of (input_column cfg) (columns df') = Some i'
                      /\ search_terms_of df' i' <> []
                      /\ Ok tt = Ok tt :> py unit).
           { exists df, i; rewrite Et; repeat split; auto; discriminate. }
           destruct mx as [[]|e].
           ++ left; split; [exact Hb|split; [reflexivity|]].
              destruct (loop cfg browser started (t :: ts)) as [st c].
              exists c; apply finish_ended.
           ++ right; left; split; [exact Hb|].
              split; [exists e; reflexivity|repeat split].
        -- right; right; split; [|repeat split].
           intros (_ & _ & _ & _ & _ & H); discriminate.
    + right; right; split; [|repeat split].
      intros (df' & i' & Ed & Hi' & _); injection Ed as <-; congruence.
  - right; right; split; [|repeat split].
    intros (df' & _ & Ed & _); discriminate.
Qed.

(** *** Spaces around a term *)

Lemma lstrip_spaces_app w x :
  (forall c, In c (list_ascii_of_string w) -> is_space c = true) ->
  lstrip (w +++ x) = lstrip x.
Proof.
  induction w as [|a w IH]; intros Hw; [reflexivity|].
  cbn [String.append lstrip]; rewrite (Hw a) by (left; reflexivity).
  apply IH; intros c Hc; apply Hw; right; exact Hc.
Qed.

Lemma lstrip_app_headed x w :
  lstrip x <> "" -> lstrip (x +++ w) = lstrip x +++ w.
Proof.
  induction x as [|a x IH]; [simpl; congruence|].
  cbn [String.append lstrip]; destruct (is_space a); [exact IH|reflexivity].
Qed.

Lemma strip_spaces_around w x w' :
  (forall c, In c (list_ascii_of_string w) -> is_space c = true) ->
  (forall c, In c (list_ascii_of_string w') -> is_space c = true) ->
  strip (w +++ x +++ w') = strip x.
Proof.
  intros Hw Hw'; unfold strip; rewrite (lstrip_spaces_app w _ Hw).
  destruct (lstrip x) as [|a r] eqn:E.
  - assert (Hall : forall c, In c (list_ascii_of_string (x +++ w')) ->
                             is_space c = true).
    { intros c Hc; apply chars_app in Hc; destruct Hc as [Hc|Hc]; [|auto].
      apply (proj1 (lstrip_empty_iff x) E c Hc). }
    apply lstrip_empty_iff in Hall; rewrite Hall; reflexivity.
  - rewrite lstrip_app_headed by (rewrite E; discriminate).
    rewrite E; apply rstrip_spaces, Hw'.
Qed.

(** X22: Spaces before and after a term do not matter: [clean_search_term] gives
    the same result for a term and for the term with any spaces added
    around it. *)
Theorem clean_ignores_spaces_around w x w' :
  (forall c, In c (list_ascii_of_string w) -> is_space c = true) ->
  (forall c, In c (list_ascii_of_string w') -> is_space c = true) ->
  clean_search_term (w +++ x +++ w') = clean_search_term x.
Proof.
  intros Hw Hw'.
  rewrite <- (clean_of_strip (w +++ x +++ w')), <- (clean_of_strip x).
  rewrite (strip_spaces_around w x w' Hw Hw'); reflexivity.
Qed.

Lemma clean_ignores_spaces_around_witness :
  clean_search_term ("  " +++ "Manteca Unified District" +++ " ")
  = clean_search_term "Manteca Unified District".
Proof.
  apply clean_ignores_spaces_around.
  - intros c [<-|[<-|[]]]; reflexivity.
  - intros c [<-|[]]; reflexivity.
Defined.

(** *** Ten digits in a row *)

Lemma digit_not_space c : is_digit c = true -> is_space c = false.
Proof. destruct c as [[] [] [] [] [] [] [] []]; vm_compute; congruence. Qed.

Lemma lstrip_keeps pre c s :
  is_space c = false ->
  exists pre', lstrip (pre +++ String c s) = pre' +++ String c s.
Proof.
  intros Hc; induction pre as [|a pre IH].
  - exists ""; simpl; rewrite Hc; reflexivity.
  - cbn [String.append lstrip]; destruct (is_space a); [exact IH|].
    exists (String a pre); reflexivity.
Qed.

Lemma rstrip_keeps a c post :
  is_space c = false ->
  exists post', rstrip (a +++ String c post) = a +++ String c post'.
Proof.
  intros Hc; induction a as [|x a IH].
  - cbn [String.append]; rewrite (rstrip_cons_ns _ _ Hc); eauto.
  - destruct IH as (post' & E).
    cbn [String.append]; rewrite rstrip_cons, E.
    destruct a; cbn [String.append is_empty andb]; eauto.
Qed.

(** X23: A block whose text has ten digits in a row always gets a phone: the
    phone returned is not "N/A". *)
Theorem ten_digits_give_a_phone td t pre ds post :
  text td = Ok t ->
  t = pre +++ ds +++ post ->
  String.length ds = 10 ->
  (forall c, In c (list_ascii_of_string ds) -> is_digit c = true) ->
  exists name phone email,
    extract_contact_info td = Ok (name, phone, email) /\ phone <> NA.
Proof.
  intros Ht Et Hlen Hds.
  destruct ds as [|d1 [|d2 [|d3 [|d4 [|d5 [|d6 [|d7 [|d8 [|d9 [|d10 [|x ds]]]]]]]]]]];
    try discriminate Hlen.
  assert (H1 : is_digit d1 = true) by (apply Hds; cbn [list_ascii_of_string In];
        repeat (first [left; reflexivity|right])).
  assert (H2 : is_digit d2 = true) by (apply Hds; cbn [list_ascii_of_string In];
        repeat (first [left; reflexivity|right])).
  assert (H3 : is_digit d3 = true) by (apply Hds; cbn [list_ascii_of_string In];
        repeat (first [left; reflexivity|right])).
  assert (H4 : is_digit d4 = true) by (apply Hds; cbn [list_ascii_of_string In];
        repeat (first [left; reflexivity|right])).
  assert (H5 : is_digit d5 = true) by (apply Hds; cbn [list_ascii_of_string In];
        repeat (first [left; reflexivity|right])).
  assert (H6 : is_digit d6 = true) by (apply Hds; cbn [list_ascii_of_string In];
        repeat (first [left; reflexivity|right])).
  assert (H7 : is_digit d7 = true) by (apply Hds; cbn [list_ascii_of_string In];
        repeat (first [left; reflexivity|right])).
  assert (H8 : is_digit d8 = true) by (apply Hds; cbn [list_ascii_of_string In];
        repeat (first [left; reflexivity|right])).
  assert (H9 : is_digit d9 = true) by (apply Hds; cbn [list_ascii_of_string In];
        repeat (first [left; reflexivity|right])).
  assert (H10 : is_digit d10 = true) by (apply Hds; cbn [list_ascii_of_string In];
        repeat (first [left; reflexivity|right])).
  set (tail := String d2 (String d3 (String d4 (String d5 (String d6
                 (String d7 (String d8 (String d9 "")))))))).
  assert (Hshape : exists pre' post',
             strip t = pre' +++ String d1 (tail +++ String d10 post')).
  { assert (Ets : t = pre +++ String d1 (tail +++ String d10 post))
      by (rewrite Et; reflexivity).
    unfold strip; rewrite Ets.
    destruct (lstrip_keeps pre d1 (tail +++ String d10 post)
                (digit_not_space _ H1)) as (pre' & E).
    rewrite E.
    assert (Ea : forall z, pre' +++ String d1 (tail +++ String d10 z)
                           = (pre' +++ String d1 tail) +++ String d10 z)
      by (intros z; rewrite append_assoc; reflexivity).
    destruct (rstrip_keeps (pre' +++ String d1 tail) d10 post
                (digit_not_space _ H10)) as (post' & E').
    rewrite Ea, E'; exists pre', post'; rewrite Ea; reflexivity. }
  destruct Hshape as (pre' & post' & Es).
  assert (Hm : matches phone_re (String d1 (tail +++ String d10 post')) post').
  { unfold phone_re, digits3, digits4, digit, tail; cbn [String.append].
    eapply M_cat; [apply M_opt_none|].
    eapply M_cat; [repeat (eapply M_cat; [apply M_class; assumption|]);
                   apply M_class; assumption|].
    eapply M_cat; [apply M_opt_none|].
    eapply M_cat; [apply M_opt_none|].
    eapply M_cat; [repeat (eapply M_cat; [apply M_class; assumption|]);
                   apply M_class; assumption|].
    eapply M_cat; [apply M_opt_none|].
    repeat (eapply M_cat; [apply M_class; assumption|]).
    apply M_class; assumption. }
  unfold extract_contact_info; rewrite Ht.
  eexists _, _, _; split; [reflexivity|].
  destruct (search phone_re (strip t)) as [m|] eqn:E.
  - destruct (search_phone_digits _ _ E) as (Hd & _).
    intros ->; discriminate Hd.
  - exfalso; apply (proj1 (search_none_iff _ _) E pre' _ post' Es Hm).
Qed.

Lemma ten_digits_give_a_phone_witness :
  exists name phone email,
    extract_contact_info (block "call 9165551234 now" None)
    = Ok (name, phone, email) /\ phone <> NA.
Proof.
  apply (ten_digits_give_a_phone (block "call 9165551234 now" None)
           "call 9165551234 now" "call " "9165551234" " now");
    try reflexivity.
  intros c H; simpl in H.
  repeat (destruct H as [<-|H]; [reflexivity|]); destruct H.
Defined.

(** *** A loop that ends early *)



End EdgeFacts.
